(** * Minesweeper: board generation and reveal resolution

    A shallow embedding of the game logic of [src/App.tsx] (the closures
    [generateInitialGrid], [countAdjacentBombs], [uncoverTile] with its inner
    [cascade], and [toggleFlag] of the [GameGrid] component), followed by the
    properties of the specification proved about it.

    Conventions of the embedding.
    - A JavaScript number used as an index, a row, a column or a count is a
      [Z]; [Math.floor (a / b)] is [a / b] and [a % b] is [Z.rem a b].
    - An array is a [list]; reading [a[i]] outside the array gives
      [undefined], here [None]; reading a property of [undefined] throws a
      [TypeError].
    - A run of a function is a [Res]: either [Ok] with its result, or [Err]
      with the reason it stopped.
    - The props [width], [height] and [numBoms] of [GameGrid] are whole
      numbers: what is proved is proved of boards of whole dimensions.
    - The call stack of the engine admits a number [stack] of nested calls of
      [cascade], which no theorem fixes. *)

From Stdlib Require Import ZArith QArith Lia Bool List.
From stdpp Require Import base list strings pretty.
Import ListNotations.

Local Open Scope Z_scope.

(** ** Data model *)

(** [type Tile = BombTile | NumberTile | EmptyTile], each with its [index]. *)
Inductive Tile : Type :=
| BombTile (index : Z)
| NumberTile (index : Z) (adjacentBombs : Z)
| EmptyTile (index : Z).

(** The discriminant [tile.type]. *)
Inductive TileType : Type := bomb | number | empty.

Definition type (t : Tile) : TileType :=
  match t with
  | BombTile _ => bomb
  | NumberTile _ _ => number
  | EmptyTile _ => empty
  end.

Definition index (t : Tile) : Z :=
  match t with
  | BombTile i => i
  | NumberTile i _ => i
  | EmptyTile i => i
  end.

(** [tile.type === 'bomb'] and [tile.type === 'empty']. *)
Definition is_bomb (t : Tile) : bool :=
  match t with BombTile _ => true | _ => false end.

Definition is_empty (t : Tile) : bool :=
  match t with EmptyTile _ => true | _ => false end.

Definition is_number (t : Tile) : bool :=
  match t with NumberTile _ _ => true | _ => false end.

(** [type TileState = { isOpen: boolean; isFlagged: boolean }]. *)
Record TileState : Type := mkTileState { isOpen : bool; isFlagged : bool }.

(** [{ ...s, isOpen: true }] and [{ ...s, isFlagged: v }]. *)
Definition withOpen (s : TileState) : TileState :=
  {| isOpen := true; isFlagged := isFlagged s |}.

Definition withFlagged (v : bool) (s : TileState) : TileState :=
  {| isOpen := isOpen s; isFlagged := v |}.

(** What the enclosing [App] is told: [onGameOver(true)] is [Won],
    [onGameOver(false)] is [Lost], and [InProgress] is a return without a call
    of [onGameOver]. *)
Inductive Outcome : Type := InProgress | Won | Lost.

(** ** Runs and their failures *)

(** Why a run stopped without a result.
    - [TypeError]: a property of [undefined] was read.
    - [RangeError]: [Array(n)] with [n] negative or not below 2^32.
    - [GrowsArray]: an assignment [a[i] = v] with [i] outside the array; the
      JavaScript array would be extended by a cell that is no [TileState],
      which the lists of this embedding do not describe.
    - [StackOverflow]: the nested calls of [cascade] are more than the call
      stack admits; the engine throws its
      [RangeError: Maximum call stack size exceeded].
    - [OutOfFuel]: the random draws given to the generator are used up
      while mines remain to be placed. *)
Inductive Abort : Type :=
  TypeError | RangeError | GrowsArray | StackOverflow | OutOfFuel.

Inductive Res (A : Type) : Type :=
| Ok (a : A)
| Err (e : Abort).

Arguments Ok {A} a.
Arguments Err {A} e.

Definition bind {A B : Type} (m : Res A) (k : A -> Res B) : Res B :=
  match m with
  | Ok a => k a
  | Err e => Err e
  end.

Notation "'let*' x ':=' m 'in' k" := (bind m (fun x => k))
  (at level 10, x pattern, m at level 100, k at level 200).

(** [a[i]]: [None] stands for [undefined]. *)
Definition item {A : Type} (a : list A) (i : Z) : option A :=
  if decide (0 <= i) then a !! Z.to_nat i else None.

(** Reading a property of [a[i]]: throws when [a[i]] is [undefined]. *)
Definition prop {A : Type} (o : option A) : Res A :=
  match o with
  | Some x => Ok x
  | None => Err TypeError
  end.

(** [a[i] = v]. *)
Definition assign {A : Type} (a : list A) (i : Z) (v : A) : Res (list A) :=
  if decide (0 <= i < Z.of_nat (length a))
  then Ok (<[Z.to_nat i := v]> a)
  else Err GrowsArray.

(** [a[i] = { ...a[i], field: v }], the spread of [undefined] being empty. *)
Definition update (a : list TileState) (i : Z) (f : TileState -> TileState)
  : Res (list TileState) :=
  match item a i with
  | Some s => assign a i (f s)
  | None => Err GrowsArray
  end.

(** [for (let x of xs) body(x)] over a state [S]. *)
Fixpoint forM {X S : Type} (xs : list X) (body : X -> S -> Res S) (s : S)
  : Res S :=
  match xs with
  | [] => Ok s
  | x :: xs' => let* s' := body x s in forM xs' body s'
  end.

(** [a.forEach((t, i) => body(t, i))], [i] counting from [i0]. *)
Fixpoint forEach {X S : Type} (a : list X) (i0 : Z) (body : X -> Z -> S -> Res S)
  (s : S) : Res S :=
  match a with
  | [] => Ok s
  | t :: a' => let* s' := body t i0 s in forEach a' (i0 + 1) body s'
  end.

(** [a.map((t, i) => f(t, i))], [i] counting from [i0]. *)
Fixpoint mapi {X Y : Type} (a : list X) (i0 : Z) (f : X -> Z -> Res Y)
  : Res (list Y) :=
  match a with
  | [] => Ok []
  | t :: a' =>
      let* y := f t i0 in
      let* ys := mapi a' (i0 + 1) f in
      Ok (y :: ys)
  end.

(** [a.filter((t, i) => p(t, i)).length], [i] counting from [i0]. *)
Fixpoint filterCount {X : Type} (a : list X) (i0 : Z) (p : X -> Z -> Res bool)
  : Res Z :=
  match a with
  | [] => Ok 0
  | t :: a' =>
      let* b := p t i0 in
      let* n := filterCount a' (i0 + 1) p in
      Ok (if b then n + 1 else n)
  end.

(** The values of [for (let i = -1; i <= 1; i++)]. *)
Definition around : list Z := [-1; 0; 1].

(** ** The component [GameGrid] *)

Section GameGrid.

(** The props [width], [height] and [numBoms]. *)
Variables width height numBoms : Z.

(** [newRow >= 0 && newRow < height && newCol >= 0 && newCol < width]. *)
Definition inGrid (newRow newCol : Z) : bool :=
  (0 <=? newRow) && (newRow <? height) && (0 <=? newCol) && (newCol <? width).

(** *** Board generator *)

Definition countAdjacentBombs (index : Z) (positions : list Tile) : Res Z :=
  let row := index / width in
  let col := Z.rem index width in
  forM around (fun i =>
    forM around (fun j count =>
      let newRow := row + i in
      let newCol := col + j in
      if inGrid newRow newCol then
        let newIndex := newRow * width + newCol in
        let* t := prop (item positions newIndex) in
        Ok (if is_bomb t then count + 1 else count)
      else Ok count)) 0.

(** The loop [while (bombsPlaced < numBoms)]. [draws] lists the values
    that [Math.floor(Math.random() * positions.length)] takes, one for each
    turn of the loop. *)
Fixpoint placeBombs (draws : list Z) (positions : list Tile) (bombsPlaced : Z)
  : Res (list Tile) :=
  match draws with
  | [] => if decide (bombsPlaced < numBoms) then Err OutOfFuel else Ok positions
  | randomIndex :: draws' =>
      if decide (bombsPlaced < numBoms) then
        let* t := prop (item positions randomIndex) in
        if is_empty t then
          let* positions' := assign positions randomIndex (BombTile randomIndex) in
          placeBombs draws' positions' (bombsPlaced + 1)
        else placeBombs draws' positions bombsPlaced
      else Ok positions
  end.

Definition generateInitialGrid (draws : list Z) : Res (list Tile) :=
  if decide (width * height < 0 \/ 2 ^ 32 <= width * height)
  then Err RangeError else
  let positions := map EmptyTile (seqZ 0 (width * height)) in
  let* positions := placeBombs draws positions 0 in
  mapi positions 0 (fun tile index =>
    if is_bomb tile then Ok tile else
    let* adjacentBombs := countAdjacentBombs index positions in
    Ok (if 0 <? adjacentBombs
        then NumberTile index adjacentBombs
        else EmptyTile index)).

(** [Array(width * height).fill({ isOpen: false, isFlagged: false })]. *)
Definition initialTileStates : Res (list TileState) :=
  if decide (width * height < 0 \/ 2 ^ 32 <= width * height)
  then Err RangeError else
  Ok (replicate (Z.to_nat (width * height))
        {| isOpen := false; isFlagged := false |}).

(** *** Reveal resolver *)

Variable tiles : list Tile.

(** The closure [cascade] of [uncoverTile], over the array [newTileStates]
    it mutates. [stack] is the number of nested calls that the call stack
    still admits: a call made when none is left throws. *)
Fixpoint cascade (stack : nat) (idx : Z) (newTileStates : list TileState)
  : Res (list TileState) :=
  match stack with
  | O => Err StackOverflow
  | S stack' =>
      if (idx <? 0) || (idx >=? Z.of_nat (length tiles)) then Ok newTileStates else
      let* s := prop (item newTileStates idx) in
      if isOpen s then Ok newTileStates else
      let* t := prop (item tiles idx) in
      if is_bomb t then Ok newTileStates else
      let* newTileStates := update newTileStates idx withOpen in
      if is_empty t then
        let row := idx / width in
        let col := Z.rem idx width in
        forM around (fun i =>
          forM around (fun j newTileStates =>
            let newRow := row + i in
            let newCol := col + j in
            if inGrid newRow newCol
            then cascade stack' (newRow * width + newCol) newTileStates
            else Ok newTileStates)) newTileStates
      else Ok newTileStates
  end.

(** [cascade] with a ghost log: the indices that pass the guard and are
    marked open, the latest first. *)
Fixpoint cascadeLog (stack : nat) (idx : Z) (st : list TileState * list Z)
  : Res (list TileState * list Z) :=
  match stack with
  | O => Err StackOverflow
  | S stack' =>
      let '(newTileStates, log) := st in
      if (idx <? 0) || (idx >=? Z.of_nat (length tiles)) then Ok st else
      let* s := prop (item newTileStates idx) in
      if isOpen s then Ok st else
      let* t := prop (item tiles idx) in
      if is_bomb t then Ok st else
      let* newTileStates := update newTileStates idx withOpen in
      if is_empty t then
        let row := idx / width in
        let col := Z.rem idx width in
        forM around (fun i =>
          forM around (fun j st =>
            let newRow := row + i in
            let newCol := col + j in
            if inGrid newRow newCol
            then cascadeLog stack' (newRow * width + newCol) st
            else Ok st)) (newTileStates, idx :: log)
      else Ok (newTileStates, idx :: log)
  end.

(** [tiles.forEach((t, i) => { if (t.type === 'bomb') newTileStates[i] = f(newTileStates[i]) })]. *)
Definition forEachBomb (f : TileState -> TileState) (newTileStates : list TileState)
  : Res (list TileState) :=
  forEach tiles 0 (fun t i newTileStates =>
    if is_bomb t then update newTileStates i f else Ok newTileStates)
    newTileStates.

(** [tiles.filter((t, i) => t.type !== 'bomb' && !newTileStates[i].isOpen).length]. *)
Definition unopenedNonBombs (newTileStates : list TileState) : Res Z :=
  filterCount tiles 0 (fun t i =>
    if negb (is_bomb t) then
      let* s := prop (item newTileStates i) in Ok (negb (isOpen s))
    else Ok false).

(** [uncoverTile(index)] run on the state [tileStates], on a call stack
    that admits [stack] nested calls of [cascade]: the array given to
    [setTileStates] last ([tileStates] itself when it is not called) and
    the outcome. A run that throws has called neither [setTileStates] nor
    [onGameOver]. *)
Definition uncoverTileWithin (stack : nat) (tileStates : list TileState)
  (index : Z) : Res (list TileState * Outcome) :=
  let* s := prop (item tileStates index) in
  if isOpen s then Ok (tileStates, InProgress) else
  let newTileStates := tileStates in
  let* tile := prop (item tiles index) in
  if is_bomb tile then
    let* newTileStates := forEachBomb withOpen newTileStates in
    Ok (newTileStates, Lost)
  else
    let* newTileStates := cascade stack index newTileStates in
    let* unopened := unopenedNonBombs newTileStates in
    if unopened =? 0 then
      let* newTileStates := forEachBomb (withFlagged true) newTileStates in
      Ok (newTileStates, Won)
    else Ok (newTileStates, InProgress).

(** [uncoverTile(index)] on a call stack that admits one nested call more
    than the board has cells, which is as deep as a cascade can get. *)
Definition uncoverTile (tileStates : list TileState) (index : Z)
  : Res (list TileState * Outcome) :=
  uncoverTileWithin (S (length tileStates)) tileStates index.

(** The updater that [toggleFlag(index)] gives to [setTileStates]. *)
Definition toggleFlag (prev : list TileState) (index : Z) : Res (list TileState) :=
  let newStates := prev in
  let* s := prop (item newStates index) in
  update newStates index (withFlagged (negb (isFlagged s))).

End GameGrid.

(** ** Vocabulary of the specification *)

(** What an observer reads of cell [c]; all are [false] outside the array. *)
Definition openAt (st : list TileState) (c : Z) : bool :=
  match item st c with Some s => isOpen s | None => false end.

Definition flagAt (st : list TileState) (c : Z) : bool :=
  match item st c with Some s => isFlagged s | None => false end.

Definition bombAt (tiles : list Tile) (c : Z) : bool :=
  match item tiles c with Some t => is_bomb t | None => false end.

Definition emptyAt (tiles : list Tile) (c : Z) : bool :=
  match item tiles c with Some t => is_empty t | None => false end.

Definition numberAt (tiles : list Tile) (c : Z) : bool :=
  match item tiles c with Some t => is_number t | None => false end.

(** A cell of the board that holds no mine. *)
Definition safeAt (tiles : list Tile) (c : Z) : bool :=
  match item tiles c with Some t => negb (is_bomb t) | None => false end.

(** The number of elements of [l] that satisfy [p]. *)
Fixpoint count {A : Type} (p : A -> bool) (l : list A) : Z :=
  match l with
  | [] => 0
  | x :: l' => (if p x then 1 else 0) + count p l'
  end.

(** The number of cells that are not open. *)
Definition closedCount (st : list TileState) : Z :=
  count (fun s => negb (isOpen s)) st.

(** The tiles while the mines are placed: each is [Empty] or a mine, and
    holds its own index. *)
Definition bombsOrEmpty (positions : list Tile) : Prop :=
  forall c t, item positions c = Some t -> t = EmptyTile c \/ t = BombTile c.

(** Two state arrays of one length that agree on every revealed field;
    their flagged fields may differ. *)
Definition sameOpen (a b : list TileState) : Prop :=
  length a = length b /\ forall c, openAt a c = openAt b c.

(** The number of cells without a mine that are not open. *)
Definition unrevealedSafe (tiles : list Tile) (st : list TileState) : Z :=
  count (fun c => safeAt tiles c && negb (openAt st c))
    (seqZ 0 (Z.of_nat (length tiles))).

(** [st] with [f] applied to the state of every mine cell. *)
Definition onBombs (tiles : list Tile) (f : TileState -> TileState)
  (st st' : list TileState) : Prop :=
  length st' = length st /\
  forall c, item st' c =
    if bombAt tiles c then option_map f (item st c) else item st c.

Section Grid.

Variables width height : Z.

(** A layout for a [width] x [height] grid, and a state array for it. *)
Definition gridLayout (tiles : list Tile) : Prop :=
  0 < width /\ 0 < height /\ Z.of_nat (length tiles) = width * height.

Definition wellFormed (tiles : list Tile) (st : list TileState) : Prop :=
  gridLayout tiles /\ length st = length tiles.

(** Cells [c] and [d] of the grid are distinct and touch, by a side or a
    corner: their rows differ by at most one and so do their columns. *)
Definition adjacent (c d : Z) : Prop :=
  0 <= c < width * height /\ 0 <= d < width * height /\ c <> d /\
  Z.abs (d / width - c / width) <= 1 /\
  Z.abs (d mod width - c mod width) <= 1.

Definition adjacentb (c d : Z) : bool :=
  (0 <=? c) && (c <? width * height) && (0 <=? d) && (d <? width * height) &&
  negb (c =? d) &&
  (Z.abs (d / width - c / width) <=? 1) &&
  (Z.abs (d mod width - c mod width) <=? 1).

(** The cells that the double loop over [i] and [j] reaches from [idx], in
    its order; [idx] itself is among them. *)
Definition neighbours (idx : Z) : list Z :=
  flat_map (fun i =>
    flat_map (fun j =>
      if inGrid width height (idx / width + i) (Z.rem idx width + j)
      then [(idx / width + i) * width + (Z.rem idx width + j)]
      else []) around) around.

Variable tiles : list Tile.

(** The connected zero-adjacency region of [idx]: the cells joined to
    [idx] by a chain of adjacent [Empty] cells. *)
Inductive zeroRegion (idx : Z) : Z -> Prop :=
| zeroRegion_start : zeroRegion idx idx
| zeroRegion_step c d :
    zeroRegion idx c -> adjacent c d -> emptyAt tiles d = true ->
    zeroRegion idx d.

(** The [Number] cells that touch the region of [idx]. *)
Definition border (idx d : Z) : Prop :=
  numberAt tiles d = true /\ exists c, zeroRegion idx c /\ adjacent c d.

(** The cells that a cascade started at [idx] may open: [idx] when it holds
    no mine, and what is reached from a neighbour when [idx] is [Empty]. *)
Inductive flood : Z -> Z -> Prop :=
| flood_here idx : safeAt tiles idx = true -> flood idx idx
| flood_next idx n c :
    emptyAt tiles idx = true -> In n (neighbours idx) -> flood n c ->
    flood idx c.

(** The states of a game: the initial one, and those that [uncoverTile] and
    [toggleFlag] lead to. A reveal that overflows the call stack sets no
    state, and one that returns on some call stack returns the same on a
    deep one: the states of a game on any call stack are among these. *)
Inductive reachable : list TileState -> Prop :=
| reachable_initial st :
    initialTileStates width height = Ok st -> reachable st
| reachable_uncover st idx st' o :
    reachable st -> uncoverTile width height tiles st idx = Ok (st', o) ->
    reachable st'
| reachable_flag st idx st' :
    reachable st -> toggleFlag st idx = Ok st' -> reachable st'.

(** Every open [Empty] cell outside [X] has its mine-free neighbours open. *)
Definition floodClosed (X : Z -> Prop) (st : list TileState) : Prop :=
  forall c d, openAt st c = true -> emptyAt tiles c = true -> ~ X c ->
    In d (neighbours c) -> safeAt tiles d = true -> openAt st d = true.

(** [st'] is [st] with some closed mine-free cells marked open, and
    nothing else changed. *)
Definition opensSafe (st st' : list TileState) : Prop :=
  length st' = length st /\
  forall c, item st' c = item st c \/
    exists s, item st c = Some s /\ isOpen s = false /\
      item st' c = Some (withOpen s) /\ safeAt tiles c = true.

(** The direct recount of the mines around [c]: the cells of the grid that
    are adjacent to [c] and hold a mine. *)
Definition recount (c : Z) : Z :=
  count (fun d => adjacentb c d && bombAt tiles d) (seqZ 0 (width * height)).

End Grid.

(** ** Boards of the scenarios *)

(** A cell as [initialTileStates] makes it. *)
Definition closed : TileState := {| isOpen := false; isFlagged := false |}.

(** A revealed cell without a flag. *)
Definition opened : TileState := {| isOpen := true; isFlagged := false |}.

(** Width 5, height 1, one mine at index 4. *)
Definition board5x1 : list Tile :=
  [EmptyTile 0; EmptyTile 1; EmptyTile 2; NumberTile 3 1; BombTile 4].

(** Width 2, height 1, one mine at index 1. *)
Definition board2x1 : list Tile := [NumberTile 0 1; BombTile 1].

(** Width 3, height 3, one mine at index 8. *)
Definition board3x3 : list Tile :=
  [EmptyTile 0; EmptyTile 1; EmptyTile 2;
   EmptyTile 3; NumberTile 4 1; NumberTile 5 1;
   EmptyTile 6; NumberTile 7 1; BombTile 8].

(** Width [n + 2], height 1, one mine at the last index: [n] [Empty] cells
    in a row, then the [Number] cell beside the mine. *)
Definition rowBoard (n : nat) : list Tile :=
  map EmptyTile (seqZ 0 (Z.of_nat n)) ++
  [NumberTile (Z.of_nat n) 1; BombTile (Z.of_nat n + 1)].

(** Two runs that stop for the same reason, or end in results related by
    [R]. *)
Definition simRes {S1 S2 : Type} (R : S1 -> S2 -> Prop) (r1 : Res S1) (r2 : Res S2)
  : Prop :=
  match r1, r2 with
  | Ok a, Ok b => R a b
  | Err e1, Err e2 => e1 = e2
  | _, _ => False
  end.

(** What the log of a run from [st] to [st'] holds, relative to the log
    [log] it started with: the cells that the run marked open, each once. *)
Definition logged (st : list TileState) (log : list Z)
  (st' : list TileState) (r : list TileState * list Z) : Prop :=
  exists new, r = (st', new ++ log) /\ NoDup new /\
    forall c, In c new <-> (openAt st c = false /\ openAt st' c = true).

(** ** The rest of the component and the screens around it *)

(** The states that follow [st] in a game, after any number of calls of
    [uncoverTile] and [toggleFlag]. *)
Inductive evolves (width height : Z) (tiles : list Tile) (st : list TileState)
  : list TileState -> Prop :=
| evolves_here : evolves width height tiles st st
| evolves_uncover st1 idx st2 o :
    evolves width height tiles st st1 ->
    uncoverTile width height tiles st1 idx = Ok (st2, o) ->
    evolves width height tiles st st2
| evolves_flag st1 idx st2 :
    evolves width height tiles st st1 ->
    toggleFlag st1 idx = Ok st2 ->
    evolves width height tiles st st2.

(** The number of draws that bring a value not in [seen] and not drawn
    before. *)
Fixpoint freshDraws (seen draws : list Z) : Z :=
  match draws with
  | [] => 0
  | d :: draws' =>
      if existsb (Z.eqb d) seen
      then freshDraws seen draws'
      else 1 + freshDraws (d :: seen) draws'
  end.

(** The first [m] values of [draws] that are not in [seen] and differ from
    one another. *)
Fixpoint firstDistinct (m : nat) (seen draws : list Z) : list Z :=
  match draws with
  | [] => []
  | d :: draws' =>
      match m with
      | O => []
      | S m' =>
          if existsb (Z.eqb d) seen
          then firstDistinct m seen draws'
          else d :: firstDistinct m' (d :: seen) draws'
      end
  end.

(** [getTileDisplay(tile, state)]; [adjacentBombs.toString()] is the decimal
    numeral [pretty adjacentBombs]. *)
Definition getTileDisplay (tile : Tile) (state : TileState) : string :=
  if negb (isOpen state) then
    if isFlagged state then "⛳️" else ""
  else
    match tile with
    | BombTile _ => "💣"
    | NumberTile _ adjacentBombs => pretty adjacentBombs
    | EmptyTile _ => ""
    end.

(** The props [text] and [open] of the [Tile]s that [GameGrid] renders:
    [tiles.map((tile, index) => ...)] with
    [text={getTileDisplay(tile, tileStates[index])}] and
    [open={tileStates[index].isOpen}]. *)
Definition renderTiles (tiles : list Tile) (tileStates : list TileState)
  : Res (list (string * bool)) :=
  mapi tiles 0 (fun tile index =>
    let* state := prop (item tileStates index) in
    Ok (getTileDisplay tile state, isOpen state)).

(** The component [App]: its state hooks, its handlers [onConfig] and
    [onRestart], and the [onGameOver] that it passes to [GameGrid]. [App]
    stores the numbers of the configuration and hands them on, without any
    arithmetic on them: [number] stands for the JavaScript numbers, whole or
    not, and [ofZ] for the integer literals. *)
Module App.

Section Numbers.

Context {number : Type} (ofZ : Z -> number).

Record State : Type := {
  width : number;
  height : number;
  numBombs : number;
  gameOver : bool;
  didWin : bool;
  gameStarted : bool
}.

Definition initial : State :=
  {| width := ofZ 10; height := ofZ 10; numBombs := ofZ 10;
     gameOver := false; didWin := false; gameStarted := false |}.

Definition onConfig (w h n : number) (s : State) : State :=
  {| width := w; height := h; numBombs := n;
     gameOver := false; didWin := false; gameStarted := true |}.

Definition onRestart (s : State) : State :=
  {| width := width s; height := height s; numBombs := numBombs s;
     gameOver := false; didWin := false; gameStarted := false |}.

Definition onGameOver (won : bool) (s : State) : State :=
  {| width := width s; height := height s; numBombs := numBombs s;
     gameOver := true; didWin := won; gameStarted := gameStarted s |}.

(** What [App] renders: [{!gameStarted && <GameConfigScreen .../>}],
    [{gameStarted && <GameGrid .../>}] and
    [{gameOver && <GameOverScreen .../>}]. *)
Definition rendersConfigScreen (s : State) : bool := negb (gameStarted s).

Definition rendersGameGrid (s : State) : bool := gameStarted s.

Definition rendersGameOverScreen (s : State) : bool := gameOver s.

(** The states of [App]: a handler runs when the component that holds it is
    rendered, [onConfig] with whatever numbers the configuration screen
    passes. *)
Inductive reachable : State -> Prop :=
| reachable_initial : reachable initial
| reachable_onConfig s w h n :
    reachable s -> rendersConfigScreen s = true ->
    reachable (onConfig w h n s)
| reachable_onGameOver s won :
    reachable s -> rendersGameGrid s = true -> reachable (onGameOver won s)
| reachable_onRestart s :
    reachable s -> rendersGameOverScreen s = true -> reachable (onRestart s).

End Numbers.

End App.

(** ** Arrays *)

Section Arrays.

Context {A : Type}.
Implicit Types (a : list A) (i j : Z).

Lemma item_Some a i x :
  item a i = Some x -> 0 <= i < Z.of_nat (length a).
Proof.
  unfold item. destruct (decide (0 <= i)); [|discriminate].
  intros H. apply lookup_lt_Some in H. lia.
Qed.

Lemma item_None a i :
  item a i = None <-> ~ (0 <= i < Z.of_nat (length a)).
Proof.
  unfold item. destruct (decide (0 <= i)) as [Hi|Hi].
  - rewrite lookup_ge_None. lia.
  - split; [lia|done].
Qed.

Lemma item_is_Some a i :
  0 <= i < Z.of_nat (length a) -> exists x, item a i = Some x.
Proof.
  intros H. destruct (item a i) eqn:E; [eauto|].
  apply item_None in E. contradiction.
Qed.

Lemma assign_Ok a i v a' :
  assign a i v = Ok a' ->
  0 <= i < Z.of_nat (length a) /\ a' = <[Z.to_nat i := v]> a.
Proof.
  unfold assign. destruct (decide _); [|discriminate].
  intros [= <-]. done.
Qed.

Lemma assign_in_range a i v :
  0 <= i < Z.of_nat (length a) -> assign a i v = Ok (<[Z.to_nat i := v]> a).
Proof. intros H. unfold assign. destruct (decide _); [done|contradiction]. Qed.

Lemma item_insert a i j v :
  0 <= i < Z.of_nat (length a) ->
  item (<[Z.to_nat i := v]> a) j = if decide (j = i) then Some v else item a j.
Proof.
  intros Hi. unfold item. destruct (decide (j = i)) as [->|Hne].
  - destruct (decide (0 <= i)); [|lia].
    apply list_lookup_insert_eq. lia.
  - destruct (decide (0 <= j)); [|done].
    apply list_lookup_insert_ne. lia.
Qed.

Lemma item_cons x a i :
  item (x :: a) i = if decide (i = 0) then Some x else item a (i - 1).
Proof.
  unfold item. destruct (decide (i = 0)) as [->|Hne]; [done|].
  destruct (decide (0 <= i)), (decide (0 <= i - 1)); try lia; [|done].
  replace (Z.to_nat i) with (S (Z.to_nat (i - 1))) by lia. done.
Qed.

Lemma item_ext a b :
  (forall i, item a i = item b i) -> a = b.
Proof.
  intros H. apply list_eq. intros n.
  specialize (H (Z.of_nat n)). unfold item in H.
  destruct (decide (0 <= Z.of_nat n)); [|lia].
  by rewrite Nat2Z.id in H.
Qed.

End Arrays.

Lemma update_Ok st i f st' :
  update st i f = Ok st' ->
  exists s, item st i = Some s /\ length st' = length st /\
    forall j, item st' j = if decide (j = i) then Some (f s) else item st j.
Proof.
  unfold update. destruct (item st i) as [s|] eqn:E; [|discriminate].
  intros H. apply assign_Ok in H as [Hi ->].
  exists s. split; [done|]. split; [apply length_insert|].
  intros j. by apply item_insert.
Qed.

Lemma update_total st i f s :
  item st i = Some s -> exists st', update st i f = Ok st'.
Proof.
  intros E. unfold update. rewrite E.
  rewrite assign_in_range by (eapply item_Some; eauto). eauto.
Qed.

(** ** Loops *)

Lemma bind_Ok {A B : Type} (m : Res A) (k : A -> Res B) b :
  bind m k = Ok b -> exists a, m = Ok a /\ k a = Ok b.
Proof. destruct m; simpl; [eauto|discriminate]. Qed.

Lemma bind_ret {A : Type} (m : Res A) : bind m Ok = m.
Proof. by destruct m. Qed.

Lemma prop_Ok {A : Type} (o : option A) x : prop o = Ok x -> o = Some x.
Proof. destruct o; simpl; congruence. Qed.

Section ForM.

Context {X S : Type}.
Implicit Types (xs : list X) (body : X -> S -> Res S).

Lemma forM_app xs ys body s :
  forM (xs ++ ys) body s = bind (forM xs body s) (forM ys body).
Proof.
  revert s. induction xs as [|x xs IH]; intros s; simpl; [done|].
  destruct (body x s); simpl; [apply IH|done].
Qed.

Lemma forM_ext xs body1 body2 s :
  (forall x s, body1 x s = body2 x s) ->
  forM xs body1 s = forM xs body2 s.
Proof.
  intros H. revert s. induction xs as [|x xs IH]; intros s; simpl; [done|].
  rewrite H. destruct (body2 x s); simpl; [apply IH|done].
Qed.

Lemma forM_flat_map {Y : Type} (g : Y -> list X) (ys : list Y) body s :
  forM (flat_map g ys) body s = forM ys (fun y => forM (g y) body) s.
Proof.
  revert s. induction ys as [|y ys IH]; intros s; simpl; [done|].
  rewrite forM_app. destruct (forM (g y) body s); simpl; [apply IH|done].
Qed.

(** A loop that ends establishes what its turns maintain; [I] may speak of
    the elements already processed. *)
Lemma forM_inv (I : list X -> S -> Prop) xs body s s' :
  forM xs body s = Ok s' ->
  I [] s ->
  (forall done x s1 s2,
      I done s1 -> In x xs -> body x s1 = Ok s2 -> I (done ++ [x]) s2) ->
  I xs s'.
Proof.
  intros Hrun H0 Hstep.
  assert (G : forall rest done s1,
    xs = done ++ rest -> I done s1 -> forM rest body s1 = Ok s' -> I xs s').
  { induction rest as [|x rest IH]; intros done s1 Hxs Hd Hr; simpl in Hr.
    - injection Hr as <-. rewrite Hxs, app_nil_r. done.
    - apply bind_Ok in Hr as (s2 & Hb & Hr).
      apply (IH (done ++ [x]) s2); [by rewrite <- app_assoc| |done].
      apply (Hstep done x s1 s2); [done| |done].
      rewrite Hxs. apply in_or_app. right. by left. }
  by apply (G xs [] s).
Qed.

(** A loop whose turns all end, and keep [I], ends. *)
Lemma forM_total (I : S -> Prop) xs body s :
  I s ->
  (forall x s1, In x xs -> I s1 -> exists s2, body x s1 = Ok s2 /\ I s2) ->
  exists s', forM xs body s = Ok s' /\ I s'.
Proof.
  revert s. induction xs as [|x xs IH]; intros s H0 Hstep; simpl; [eauto|].
  destruct (Hstep x s) as (s2 & -> & H2); [by left|done|]. simpl.
  apply IH; [done|]. intros y s1 Hy. apply Hstep. by right.
Qed.

End ForM.

Lemma simRes_bind {S1 S2 T1 T2 : Type} (R : S1 -> S2 -> Prop) (Q : T1 -> T2 -> Prop)
  (m1 : Res S1) (m2 : Res S2) (k1 : S1 -> Res T1) (k2 : S2 -> Res T2) :
  simRes R m1 m2 ->
  (forall a b, R a b -> simRes Q (k1 a) (k2 b)) ->
  simRes Q (bind m1 k1) (bind m2 k2).
Proof. destruct m1, m2; simpl; try done. intros H Hk. by apply Hk. Qed.

Lemma simRes_mono {S1 S2 : Type} (R Q : S1 -> S2 -> Prop) r1 r2 :
  (forall a b, R a b -> Q a b) -> simRes R r1 r2 -> simRes Q r1 r2.
Proof. destruct r1, r2; simpl; auto. Qed.

Lemma forM_sim {X S1 S2 : Type} (R : S1 -> S2 -> Prop) (xs : list X)
  (body1 : X -> S1 -> Res S1) (body2 : X -> S2 -> Res S2) s1 s2 :
  R s1 s2 ->
  (forall x a b, R a b -> simRes R (body1 x a) (body2 x b)) ->
  simRes R (forM xs body1 s1) (forM xs body2 s2).
Proof.
  intros H0 Hstep. revert s1 s2 H0.
  induction xs as [|x xs IH]; intros s1 s2 H0; simpl; [done|].
  eapply simRes_bind; [by apply Hstep|]. apply IH.
Qed.

Lemma forEach_sim {X S1 S2 : Type} (R : S1 -> S2 -> Prop) (a : list X) i0
  (body1 : X -> Z -> S1 -> Res S1) (body2 : X -> Z -> S2 -> Res S2) s1 s2 :
  R s1 s2 ->
  (forall x i a b, R a b -> simRes R (body1 x i a) (body2 x i b)) ->
  simRes R (forEach a i0 body1 s1) (forEach a i0 body2 s2).
Proof.
  intros H0 Hstep. revert i0 s1 s2 H0.
  induction a as [|x a IH]; intros i0 s1 s2 H0; simpl; [done|].
  eapply simRes_bind; [by apply Hstep|]. apply IH.
Qed.

(** The double loop over [i] and [j] is a loop over the neighbours. *)
Lemma loops_neighbours {S : Type} width height idx (F : Z -> S -> Res S) s :
  forM around (fun i =>
    forM around (fun j s =>
      if inGrid width height (idx / width + i) (Z.rem idx width + j)
      then F ((idx / width + i) * width + (Z.rem idx width + j)) s
      else Ok s)) s
  = forM (neighbours width height idx) F s.
Proof.
  unfold neighbours. rewrite forM_flat_map. apply forM_ext. intros i s1.
  rewrite forM_flat_map. apply forM_ext. intros j s2.
  destruct (inGrid _ _ _ _); simpl; [by rewrite bind_ret|done].
Qed.

(** ** The cascade *)

Section Cascade.

Variables width height : Z.
Variable tiles : list Tile.

Local Abbreviation cascade := (cascade width height tiles).
Local Abbreviation neighbours := (neighbours width height).
Local Abbreviation opensSafe := (opensSafe tiles).
Local Abbreviation flood := (flood width height tiles).
Local Abbreviation floodClosed := (floodClosed width height tiles).

Lemma cascade_S fuel idx st :
  cascade (S fuel) idx st =
    if (idx <? 0) || (idx >=? Z.of_nat (length tiles)) then Ok st else
    let* s := prop (item st idx) in
    if isOpen s then Ok st else
    let* t := prop (item tiles idx) in
    if is_bomb t then Ok st else
    let* st1 := update st idx withOpen in
    if is_empty t then forM (neighbours idx) (cascade fuel) st1 else Ok st1.
Proof.
  simpl. destruct (_ || _); [done|].
  destruct (prop (item st idx)) as [s|]; simpl; [|done].
  destruct (isOpen s); [done|].
  destruct (prop (item tiles idx)) as [t|]; simpl; [|done].
  destruct (is_bomb t); [done|].
  destruct (update st idx withOpen) as [st1|]; simpl; [|done].
  destruct (is_empty t); [|done].
  apply loops_neighbours.
Qed.

(** The ways in which a call of [cascade] ends. *)
Lemma cascade_cases fuel idx st st' :
  cascade (S fuel) idx st = Ok st' ->
  (st' = st /\ (openAt st idx = true \/ safeAt tiles idx = false)) \/
  (exists st1,
      openAt st idx = false /\ safeAt tiles idx = true /\
      update st idx withOpen = Ok st1 /\
      ((emptyAt tiles idx = false /\ st' = st1) \/
       (emptyAt tiles idx = true /\
        forM (neighbours idx) (cascade fuel) st1 = Ok st'))).
Proof.
  rewrite cascade_S. unfold openAt, safeAt, emptyAt.
  destruct (_ || _) eqn:Hrange.
  { intros [= <-]. left. split; [done|]. right.
    destruct (item tiles idx) eqn:E; [|done].
    apply item_Some in E. lia. }
  destruct (item st idx) as [s|]; simpl; [|discriminate].
  destruct (isOpen s) eqn:Hopen.
  { intros [= <-]. left. auto. }
  destruct (item tiles idx) as [t|]; simpl; [|discriminate].
  destruct (is_bomb t) eqn:Hbomb.
  { intros [= <-]. left. auto. }
  destruct (update st idx withOpen) as [st1|] eqn:Hup; simpl; [|discriminate].
  intros H. right. exists st1. split; [done|]. split; [done|]. split; [done|].
  destruct (is_empty t); [right|left]; split; congruence.
Qed.

Lemma opensSafe_refl st : opensSafe st st.
Proof. split; [done|]. intros c. by left. Qed.

Lemma opensSafe_trans st1 st2 st3 :
  opensSafe st1 st2 -> opensSafe st2 st3 -> opensSafe st1 st3.
Proof.
  intros [L1 H1] [L2 H2]. split; [congruence|]. intros c.
  destruct (H2 c) as [E2|(s2 & E2 & C2 & O2 & B2)].
  - rewrite E2. apply H1.
  - destruct (H1 c) as [E1|(s1 & E1 & C1 & O1 & B1)].
    + right. exists s2. rewrite <- E1. done.
    + rewrite O1 in E2. injection E2 as <-. discriminate.
Qed.

Lemma update_opensSafe st idx st1 :
  openAt st idx = false -> safeAt tiles idx = true ->
  update st idx withOpen = Ok st1 -> opensSafe st st1.
Proof.
  intros Hc Hs Hup. apply update_Ok in Hup as (s & Es & L & Hitem).
  split; [done|]. intros c. rewrite Hitem.
  destruct (decide (c = idx)) as [->|]; [|by left].
  right. exists s. unfold openAt in Hc. rewrite Es in Hc. done.
Qed.

Lemma forM_opensSafe (F : Z -> list TileState -> Res (list TileState)) ns st st' :
  (forall n s1 s2, F n s1 = Ok s2 -> opensSafe s1 s2) ->
  forM ns F st = Ok st' -> opensSafe st st'.
Proof.
  intros HF Hrun.
  apply (forM_inv (fun _ s => opensSafe st s) ns F st st' Hrun).
  - apply opensSafe_refl.
  - intros _ n s1 s2 H1 _ H2. eapply opensSafe_trans; eauto.
Qed.

(** A cascade only marks closed mine-free cells open. *)
Lemma cascade_opensSafe fuel idx st st' :
  cascade fuel idx st = Ok st' -> opensSafe st st'.
Proof.
  revert idx st st'. induction fuel as [|fuel IH]; intros idx st st' H.
  { discriminate. }
  apply cascade_cases in H
    as [[-> _]|(st1 & Hc & Hs & Hup & [[_ ->]|[_ Hrun]])].
  - apply opensSafe_refl.
  - by apply (update_opensSafe st idx).
  - eapply opensSafe_trans; [by apply (update_opensSafe st idx)|].
    eapply forM_opensSafe; [|exact Hrun]. intros n. apply IH.
Qed.

Lemma opensSafe_length st st' : opensSafe st st' -> length st' = length st.
Proof. by intros [L _]. Qed.

Lemma opensSafe_open st st' c :
  opensSafe st st' -> openAt st c = true -> openAt st' c = true.
Proof.
  intros [_ H] Ho. unfold openAt in *.
  destruct (H c) as [->|(s & E & C & -> & _)]; [done|].
  rewrite E in Ho. congruence.
Qed.

Lemma opensSafe_flag st st' c :
  opensSafe st st' -> flagAt st' c = flagAt st c.
Proof.
  intros [_ H]. unfold flagAt.
  destruct (H c) as [->|(s & -> & _ & -> & _)]; done.
Qed.

Lemma opensSafe_newly st st' c :
  opensSafe st st' -> openAt st c = false -> openAt st' c = true ->
  safeAt tiles c = true.
Proof.
  intros [_ H] Hc Ho. unfold openAt in *.
  destruct (H c) as [E|(s & _ & _ & _ & Hs)]; [|done].
  rewrite E in Ho. congruence.
Qed.

Lemma update_open st idx st1 :
  update st idx withOpen = Ok st1 -> openAt st1 idx = true.
Proof.
  intros Hup. apply update_Ok in Hup as (s & _ & _ & Hitem).
  unfold openAt. rewrite Hitem. destruct (decide _); [done|congruence].
Qed.

Lemma update_open_other st idx st1 c :
  update st idx withOpen = Ok st1 -> openAt st1 c = true ->
  c = idx \/ openAt st c = true.
Proof.
  intros Hup. apply update_Ok in Hup as (s & _ & _ & Hitem).
  unfold openAt. rewrite Hitem. destruct (decide _); auto.
Qed.

(** A cell free of mines is open once the cascade has visited it. *)
Lemma cascade_opens_start fuel idx st st' :
  cascade fuel idx st = Ok st' -> safeAt tiles idx = true ->
  openAt st' idx = true.
Proof.
  destruct fuel as [|fuel]; [discriminate|]. intros H Hs.
  apply cascade_cases in H
    as [[-> [Ho|Hb]]|(st1 & Hc & _ & Hup & [[_ ->]|[_ Hrun]])].
  - done.
  - congruence.
  - by apply (update_open st).
  - eapply opensSafe_open; [|by apply (update_open st)].
    eapply forM_opensSafe; [|exact Hrun]. intros n. apply cascade_opensSafe.
Qed.

Lemma flood_safe idx c : flood idx c -> safeAt tiles c = true.
Proof. induction 1; done. Qed.

(** Soundness: what a cascade opens is reached by the flood. *)
Lemma cascade_sound fuel idx st st' c :
  cascade fuel idx st = Ok st' -> openAt st' c = true ->
  openAt st c = true \/ flood idx c.
Proof.
  revert idx st st'. induction fuel as [|fuel IH]; intros idx st st' H Ho.
  { discriminate. }
  apply cascade_cases in H
    as [[-> _]|(st1 & Hc & Hs & Hup & [[_ ->]|[He Hrun]])].
  - by left.
  - destruct (update_open_other _ _ _ _ Hup Ho) as [->|]; [|by left].
    right. by apply flood_here.
  - assert (G : openAt st1 c = true \/ flood idx c).
    { revert Ho.
      apply (forM_inv
        (fun _ s => openAt s c = true -> openAt st1 c = true \/ flood idx c)
        _ _ _ _ Hrun); [auto|].
      intros _ n s1 s2 H1 Hn H2 Ho2.
      destruct (IH _ _ _ H2 Ho2) as [Ho1|Hf]; [auto|].
      right. by apply (flood_next _ _ _ idx n c). }
    destruct G as [Ho1|]; [|by right].
    destruct (update_open_other _ _ _ _ Hup Ho1) as [->|]; [|by left].
    right. by apply flood_here.
Qed.

(** A cascade keeps the state closed under the flood, outside any [X]. *)
Lemma cascade_floodClosed fuel idx st st' X :
  cascade fuel idx st = Ok st' -> floodClosed X st -> floodClosed X st'.
Proof.
  revert idx st st' X.
  induction fuel as [|fuel IH]; intros idx st st' X H Hcl.
  { discriminate. }
  apply cascade_cases in H
    as [[-> _]|(st1 & Hc & Hs & Hup & Hrest)]; [done|].
  pose proof (update_opensSafe _ _ _ Hc Hs Hup) as Hgrow.
  assert (Hcl1 : floodClosed (fun c => X c \/ c = idx) st1).
  { intros c d Ho He Hx Hd Hsd.
    destruct (update_open_other _ _ _ _ Hup Ho) as [->|Ho']; [tauto|].
    eapply opensSafe_open; [exact Hgrow|].
    apply (Hcl c d); tauto. }
  destruct Hrest as [[He ->]|[He Hrun]].
  - intros c d Ho Hec Hx Hd Hsd.
    destruct (decide (c = idx)) as [->|Hne]; [congruence|].
    apply (Hcl1 c d); tauto.
  - assert (G : floodClosed (fun c => X c \/ c = idx) st' /\
                (forall d, In d (neighbours idx) -> safeAt tiles d = true ->
                           openAt st' d = true)).
    { apply (forM_inv
        (fun done s => floodClosed (fun c => X c \/ c = idx) s /\
           (forall d, In d done -> safeAt tiles d = true -> openAt s d = true))
        _ _ _ _ Hrun).
      - split; [done|]. intros d [].
      - intros done n s1 s2 [Hcl' Hdone] Hn H2. split; [by eapply IH|].
        intros d Hd Hsd. apply in_app_or in Hd as [Hd|[<-|[]]].
        + eapply opensSafe_open; [by eapply cascade_opensSafe|auto].
        + by eapply cascade_opens_start. }
    destruct G as [Hcl' Hnb].
    intros c d Ho Hec Hx Hd Hsd.
    destruct (decide (c = idx)) as [->|Hne]; [by apply Hnb|].
    apply (Hcl' c d); tauto.
Qed.

Lemma flood_extend idx c d :
  flood idx c -> emptyAt tiles c = true -> In d (neighbours c) ->
  safeAt tiles d = true -> flood idx d.
Proof.
  induction 1 as [idx Hs|idx n c He Hn Hf IH]; intros Hec Hd Hsd.
  - apply (flood_next _ _ _ idx d d); [done|done|]. by apply flood_here.
  - apply (flood_next _ _ _ idx n d); auto.
Qed.

(** Completeness: in a state closed under the flood where the start is
    open, all that the flood reaches is open. *)
Lemma floodClosed_complete idx st c :
  floodClosed (fun _ => False) st -> openAt st idx = true ->
  flood idx c -> openAt st c = true.
Proof.
  intros Hcl Ho Hf. revert Ho.
  induction Hf as [idx Hs|idx n c He Hn Hf IH]; intros Ho; [done|].
  destruct (decide (safeAt tiles n = true)) as [Hsn|Hsn].
  - apply IH. apply (Hcl idx n); auto.
  - inversion Hf; subst; [congruence|].
    exfalso. apply Hsn. unfold safeAt, emptyAt in *.
    destruct (item tiles n) as [[]|]; done.
Qed.

End Cascade.

(** ** Counting *)

Lemma count_bounds {A : Type} (p : A -> bool) (l : list A) :
  0 <= count p l <= Z.of_nat (length l).
Proof. induction l as [|x l IH]; simpl; [lia|]. destruct (p x); lia. Qed.

Lemma count_insert {A : Type} (p : A -> bool) (l : list A) (n : nat) x y :
  l !! n = Some x ->
  count p (<[n := y]> l) =
    count p l - (if p x then 1 else 0) + (if p y then 1 else 0).
Proof.
  revert n. induction l as [|z l IH]; intros [|n] H; simpl in *; try done.
  - injection H as ->. lia.
  - rewrite (IH n H). lia.
Qed.

Lemma count_app {A : Type} (p : A -> bool) (l1 l2 : list A) :
  count p (l1 ++ l2) = count p l1 + count p l2.
Proof. induction l1 as [|x l1 IH]; simpl; [done|]. rewrite IH. lia. Qed.

Lemma count_ext {A : Type} (p q : A -> bool) (l : list A) :
  (forall x, In x l -> p x = q x) -> count p l = count q l.
Proof.
  induction l as [|x l IH]; intros H; simpl; [done|].
  rewrite (H x) by (by left). rewrite IH; [done|].
  intros y Hy. apply H. by right.
Qed.

Lemma update_eq st i f st' :
  update st i f = Ok st' ->
  exists s, st !! Z.to_nat i = Some s /\ item st i = Some s /\
    st' = <[Z.to_nat i := f s]> st.
Proof.
  unfold update. destruct (item st i) as [s|] eqn:E; [|discriminate].
  intros H. apply assign_Ok in H as [Hi ->]. exists s.
  split; [|done]. unfold item in E. destruct (decide _); [done|discriminate].
Qed.

Lemma update_closedCount st idx st1 :
  openAt st idx = false -> update st idx withOpen = Ok st1 ->
  closedCount st1 = closedCount st - 1.
Proof.
  intros Hc Hup. apply update_eq in Hup as (s & Hl & Hi & ->).
  unfold closedCount. rewrite (count_insert _ _ _ s) by done.
  unfold openAt in Hc. rewrite Hi in Hc. rewrite Hc. simpl. lia.
Qed.

(** ** Termination of the cascade *)

Section Termination.

Variables width height : Z.
Variable tiles : list Tile.

Local Abbreviation cascade := (cascade width height tiles).
Local Abbreviation cascadeLog := (cascadeLog width height tiles).
Local Abbreviation neighbours := (neighbours width height).

(** A depth above the number of closed cells is enough. *)
Lemma cascade_total fuel idx st :
  (length tiles <= length st)%nat ->
  closedCount st < Z.of_nat fuel ->
  exists st', cascade fuel idx st = Ok st' /\ closedCount st' <= closedCount st.
Proof.
  revert idx st. induction fuel as [|fuel IH]; intros idx st Hlen Hfuel.
  { pose proof (count_bounds (fun s => negb (isOpen s)) st).
    unfold closedCount in Hfuel. lia. }
  rewrite cascade_S.
  destruct (_ || _) eqn:Hrange; [exists st; split; [done|lia]|].
  destruct (item_is_Some st idx) as [s Es]; [lia|]. rewrite Es. simpl.
  destruct (isOpen s) eqn:Hopen; [exists st; split; [done|lia]|].
  destruct (item_is_Some tiles idx) as [t Et]; [lia|]. rewrite Et. simpl.
  destruct (is_bomb t) eqn:Hbomb; [exists st; split; [done|lia]|].
  destruct (update_total st idx withOpen s Es) as [st1 Hup].
  rewrite Hup. simpl.
  assert (Hc : openAt st idx = false) by (unfold openAt; by rewrite Es).
  assert (Hs : safeAt tiles idx = true)
    by (unfold safeAt; rewrite Et, Hbomb; done).
  pose proof (update_closedCount _ _ _ Hc Hup) as Hcount.
  pose proof (opensSafe_length _ _ _ (update_opensSafe _ _ _ _ Hc Hs Hup)) as L1.
  destruct (is_empty t); [|exists st1; split; [done|lia]].
  destruct (forM_total
    (fun s => (length tiles <= length s)%nat /\ closedCount s <= closedCount st1)
    (neighbours idx) (cascade fuel) st1) as (st' & Hrun & _ & Hle).
  - split; lia.
  - intros n s1 _ [Hl1 Hc1].
    destruct (IH n s1) as (s2 & H2 & Hc2); [done|lia|].
    exists s2. split; [done|].
    apply cascade_opensSafe, opensSafe_length in H2. split; lia.
  - exists st'. split; [done|lia].
Qed.

Lemma cascadeLog_S fuel idx st log :
  cascadeLog (S fuel) idx (st, log) =
    if (idx <? 0) || (idx >=? Z.of_nat (length tiles)) then Ok (st, log) else
    let* s := prop (item st idx) in
    if isOpen s then Ok (st, log) else
    let* t := prop (item tiles idx) in
    if is_bomb t then Ok (st, log) else
    let* st1 := update st idx withOpen in
    if is_empty t
    then forM (neighbours idx) (cascadeLog fuel) (st1, idx :: log)
    else Ok (st1, idx :: log).
Proof.
  simpl. destruct (_ || _); [done|].
  destruct (prop (item st idx)) as [s|]; simpl; [|done].
  destruct (isOpen s); [done|].
  destruct (prop (item tiles idx)) as [t|]; simpl; [|done].
  destruct (is_bomb t); [done|].
  destruct (update st idx withOpen) as [st1|]; simpl; [|done].
  destruct (is_empty t); [|done].
  apply loops_neighbours.
Qed.

Lemma logged_none st log : logged st log st (st, log).
Proof.
  exists []. split; [done|]. split; [constructor|].
  intros c. simpl. split; [done|]. intros [? ?]. congruence.
Qed.

Lemma logged_one st idx st1 log :
  openAt st idx = false -> update st idx withOpen = Ok st1 ->
  logged st log st1 (st1, idx :: log).
Proof.
  intros Hc Hup. exists [idx]. split; [done|].
  split; [apply NoDup_singleton|].
  intros c. simpl. split.
  - intros [<-|[]]. split; [done|]. by apply (update_open st).
  - intros [Hcc Ho].
    destruct (update_open_other _ _ _ _ Hup Ho); [auto|congruence].
Qed.

Lemma logged_trans st log s1 r1 s2 r2 :
  opensSafe tiles st s1 -> opensSafe tiles s1 s2 ->
  logged st log s1 r1 -> logged s1 (snd r1) s2 r2 -> logged st log s2 r2.
Proof.
  intros G1 G2 (new1 & -> & N1 & I1) (new2 & -> & N2 & I2). simpl.
  exists (new2 ++ new1). split; [by rewrite app_assoc|]. split.
  - apply NoDup_app. split; [done|]. split; [|done].
    intros c Hc2 Hc1. rewrite list_elem_of_In in Hc1, Hc2.
    apply I1 in Hc1 as [_ ?]. apply I2 in Hc2 as [? _]. congruence.
  - intros c. rewrite in_app_iff, I1, I2. split.
    + intros [[C O]|[C O]].
      * split; [|done]. destruct (openAt st c) eqn:E; [|done].
        rewrite (opensSafe_open _ _ _ _ G1 E) in C. done.
      * split; [done|]. by apply (opensSafe_open _ _ _ _ G2).
    + intros [C O]. destruct (openAt s1 c) eqn:E; auto.
Qed.

(** The logging cascade is the cascade, and its log is as [logged] says. *)
Lemma cascadeLog_sim fuel idx st log :
  simRes (logged st log) (cascade fuel idx st) (cascadeLog fuel idx (st, log)).
Proof.
  revert idx st log. induction fuel as [|fuel IH]; intros idx st log.
  { done. }
  rewrite cascade_S, cascadeLog_S.
  destruct (_ || _); [apply logged_none|].
  destruct (item st idx) as [s|] eqn:Es; simpl; [|done].
  destruct (isOpen s) eqn:Hopen; [apply logged_none|].
  destruct (item tiles idx) as [t|] eqn:Et; simpl; [|done].
  destruct (is_bomb t) eqn:Hbomb; [apply logged_none|].
  destruct (update st idx withOpen) as [st1|] eqn:Hup; simpl; [|done].
  assert (Hc : openAt st idx = false) by (unfold openAt; by rewrite Es).
  assert (Hs : safeAt tiles idx = true)
    by (unfold safeAt; rewrite Et, Hbomb; done).
  pose proof (update_opensSafe _ _ _ _ Hc Hs Hup) as G1.
  destruct (is_empty t); [|by apply logged_one].
  apply (simRes_mono (fun s r => opensSafe tiles st1 s /\ logged st log s r));
    [tauto|].
  apply forM_sim.
  - split; [apply opensSafe_refl|by apply logged_one].
  - intros n a [b lg] [Ga Hl]. specialize (IH n a lg).
    destruct (cascade fuel n a) as [a'|] eqn:Ea,
             (cascadeLog fuel n (b, lg)) as [r'|] eqn:Eb.
    all: destruct Hl as (new & [= -> ->] & Hnew).
    all: rewrite Eb in IH; simpl in IH; try done.
    pose proof (cascade_opensSafe _ _ _ _ _ _ _ Ea) as Ga'.
    split; [by eapply opensSafe_trans|].
    eapply (logged_trans st log a (a, new ++ log)); eauto.
    + by eapply opensSafe_trans.
    + by exists new.
Qed.

End Termination.

(** ** The grid *)

Section Geometry.

Variables width height : Z.
Hypothesis width_pos : 0 < width.

Local Abbreviation neighbours := (neighbours width height).
Local Abbreviation adjacent := (adjacent width height).

Lemma In_around i : In i around <-> -1 <= i <= 1.
Proof. unfold around. simpl. lia. Qed.

Lemma In_neighbours idx d :
  In d (neighbours idx) <->
  exists i j, -1 <= i <= 1 /\ -1 <= j <= 1 /\
    inGrid width height (idx / width + i) (Z.rem idx width + j) = true /\
    d = (idx / width + i) * width + (Z.rem idx width + j).
Proof.
  unfold neighbours. rewrite in_flat_map. split.
  - intros (i & Hi & H). apply in_flat_map in H as (j & Hj & H).
    exists i, j. rewrite <- !In_around.
    destruct (inGrid _ _ _ _); [|done]. destruct H as [<-|[]]. done.
  - intros (i & j & Hi & Hj & Hg & ->). exists i.
    split; [by apply In_around|]. apply in_flat_map. exists j.
    split; [by apply In_around|]. rewrite Hg. by left.
Qed.

Lemma inGrid_true r c :
  inGrid width height r c = true <-> 0 <= r < height /\ 0 <= c < width.
Proof. unfold inGrid. rewrite !andb_true_iff. lia. Qed.

Lemma cell_div r c : 0 <= c < width -> (r * width + c) / width = r.
Proof. intros H. rewrite Z.add_comm, Z.div_add by lia. rewrite Z.div_small; lia. Qed.

Lemma cell_mod r c : 0 <= c < width -> (r * width + c) mod width = c.
Proof. intros H. rewrite Z.add_comm, Z.mod_add by lia. apply Z.mod_small; lia. Qed.

Lemma cell_range r c :
  0 <= r < height -> 0 <= c < width -> 0 <= r * width + c < width * height.
Proof. nia. Qed.

Lemma cell_row_range c : 0 <= c < width * height -> 0 <= c / width < height.
Proof.
  intros H. split; [apply Z.div_pos; lia|].
  apply Z.div_lt_upper_bound; lia.
Qed.

(** The cells that the loops reach are the cell itself and the cells
    adjacent to it. *)
Lemma neighbours_adjacent c d :
  0 <= c < width * height ->
  In d (neighbours c) <-> d = c \/ adjacent c d.
Proof.
  intros Hc. rewrite In_neighbours.
  rewrite Z.rem_mod_nonneg by lia.
  pose proof (Z.mod_pos_bound c width width_pos) as Hcol.
  pose proof (cell_row_range c Hc) as Hrow.
  pose proof (Z.div_mod c width ltac:(lia)) as Hdm.
  split.
  - intros (i & j & Hi & Hj & Hg & ->). apply inGrid_true in Hg as [Hr Hk].
    destruct (decide (i = 0 /\ j = 0)) as [[-> ->]|Hne].
    { left. rewrite !Z.add_0_r. lia. }
    right. unfold adjacent. rewrite cell_div, cell_mod by done.
    split; [done|]. split; [by apply cell_range|].
    split; [|lia].
    intros E. apply Hne.
    assert (E1 : ((c / width + i) * width + (c mod width + j)) / width = c / width)
      by (by rewrite <- E).
    assert (E2 : ((c / width + i) * width + (c mod width + j)) mod width = c mod width)
      by (by rewrite <- E).
    rewrite cell_div in E1 by done. rewrite cell_mod in E2 by done. lia.
  - pose proof (Z.mod_pos_bound d width width_pos) as Hdcol.
    pose proof (Z.div_mod d width ltac:(lia)) as Hddm.
    intros [->|(_ & Hd & _ & Hr & Hk)].
    + exists 0, 0. rewrite !Z.add_0_r. split; [lia|]. split; [lia|].
      split; [apply inGrid_true; lia|lia].
    + pose proof (cell_row_range d Hd) as Hdrow.
      exists (d / width - c / width), (d mod width - c mod width).
      split; [lia|]. split; [lia|].
      replace (c / width + (d / width - c / width)) with (d / width) by lia.
      replace (c mod width + (d mod width - c mod width)) with (d mod width) by lia.
      split; [apply inGrid_true; lia|lia].
Qed.

Lemma adjacentb_true c d : adjacentb width height c d = true <-> adjacent c d.
Proof.
  unfold adjacentb, adjacent. rewrite !andb_true_iff, negb_true_iff.
  rewrite Z.eqb_neq. lia.
Qed.

Lemma neighbours_range c d :
  In d (neighbours c) -> 0 <= d < width * height.
Proof.
  rewrite In_neighbours. intros (i & j & _ & _ & Hg & ->).
  apply inGrid_true in Hg as [? ?]. by apply cell_range.
Qed.

End Geometry.

(** ** The flood, in the words of the specification *)

Section Region.

Variables width height : Z.
Variable tiles : list Tile.
Hypothesis layout : gridLayout width height tiles.

Local Abbreviation neighbours := (neighbours width height).
Local Abbreviation adjacent := (adjacent width height).
Local Abbreviation zeroRegion := (zeroRegion width height tiles).
Local Abbreviation border := (border width height tiles).
Local Abbreviation flood := (flood width height tiles).

Lemma kind_range c t :
  item tiles c = Some t -> 0 <= c < width * height.
Proof.
  intros E. apply item_Some in E. destruct layout as (_ & _ & <-). done.
Qed.

Lemma emptyAt_range c : emptyAt tiles c = true -> 0 <= c < width * height.
Proof.
  unfold emptyAt. destruct (item tiles c) eqn:E; [|done].
  intros _. by eapply kind_range.
Qed.

Lemma emptyAt_safe c : emptyAt tiles c = true -> safeAt tiles c = true.
Proof. unfold emptyAt, safeAt. by destruct (item tiles c) as [[]|]. Qed.

Lemma numberAt_safe c : numberAt tiles c = true -> safeAt tiles c = true.
Proof. unfold numberAt, safeAt. by destruct (item tiles c) as [[]|]. Qed.

Lemma safeAt_kind c :
  safeAt tiles c = true -> emptyAt tiles c = true \/ numberAt tiles c = true.
Proof.
  unfold emptyAt, safeAt, numberAt. destruct (item tiles c) as [[]|]; auto.
Qed.

Lemma safeAt_not_bomb c : safeAt tiles c = true -> bombAt tiles c = false.
Proof. unfold bombAt, safeAt. by destruct (item tiles c) as [[]|]. Qed.

Lemma In_neighbours_adjacent c d :
  emptyAt tiles c = true -> In d (neighbours c) <-> d = c \/ adjacent c d.
Proof.
  intros He. destruct layout as (Hw & _ & _).
  apply neighbours_adjacent; [done|]. by apply emptyAt_range.
Qed.

Lemma zeroRegion_empty idx c :
  emptyAt tiles idx = true -> zeroRegion idx c -> emptyAt tiles c = true.
Proof. intros He Hz. by destruct Hz. Qed.

Lemma zeroRegion_trans a b c :
  zeroRegion a b -> zeroRegion b c -> zeroRegion a c.
Proof.
  intros Hab Hbc. induction Hbc as [|c d Hz IH Hadj He]; [done|].
  by apply (zeroRegion_step _ _ _ a c d).
Qed.

Lemma zeroRegion_neighbour idx n :
  emptyAt tiles idx = true -> In n (neighbours idx) ->
  emptyAt tiles n = true -> zeroRegion idx n.
Proof.
  intros He Hn Hen. apply In_neighbours_adjacent in Hn; [|done].
  destruct Hn as [->|Hadj].
  - apply zeroRegion_start.
  - apply (zeroRegion_step _ _ _ idx idx n); [apply zeroRegion_start|done|done].
Qed.

(** What the flood reaches from an [Empty] cell is its zero-region and
    the [Number] cells that border it. *)
Lemma flood_region idx c :
  emptyAt tiles idx = true ->
  flood idx c <-> zeroRegion idx c \/ border idx c.
Proof.
  intros He. split.
  - intros Hf. revert He.
    induction Hf as [idx Hs|idx n c _ Hn Hf IH]; intros He.
    { left. apply zeroRegion_start. }
    destruct (decide (emptyAt tiles n = true)) as [Hen|Hen].
    + pose proof (zeroRegion_neighbour idx n He Hn Hen) as Hzn.
      destruct (IH Hen) as [Hz|(Hnum & b & Hz & Hadj)].
      * left. by apply (zeroRegion_trans idx n c).
      * right. split; [done|]. exists b.
        split; [by apply (zeroRegion_trans idx n b)|done].
    + inversion Hf; subst; [|congruence].
      right. destruct (safeAt_kind c) as [?|Hnum]; [done|congruence|].
      split; [done|]. exists idx. split; [apply zeroRegion_start|].
      apply In_neighbours_adjacent in Hn as [->|Hadj]; [congruence|done|done].
  - assert (G : forall b, zeroRegion idx b -> flood idx b).
    { intros b Hz. induction Hz as [|b d Hz IH Hadj Hed].
      - apply flood_here. by apply emptyAt_safe.
      - apply (flood_extend _ _ _ idx b d); [done| | |by apply emptyAt_safe].
        + by apply (zeroRegion_empty idx).
        + apply In_neighbours_adjacent; [by apply (zeroRegion_empty idx)|auto]. }
    intros [Hz|(Hnum & b & Hz & Hadj)]; [by apply G|].
    apply (flood_extend _ _ _ idx b c); [by apply G| | |by apply numberAt_safe].
    + by apply (zeroRegion_empty idx).
    + apply In_neighbours_adjacent; [by apply (zeroRegion_empty idx)|auto].
Qed.

Lemma adjacent_sym c d : adjacent c d -> adjacent d c.
Proof. unfold adjacent. lia. Qed.

Lemma zeroRegion_sym idx c :
  emptyAt tiles idx = true -> zeroRegion idx c -> zeroRegion c idx.
Proof.
  intros He Hz. induction Hz as [|c d Hz IH Hadj Hed]; [apply zeroRegion_start|].
  apply (zeroRegion_trans d c idx); [|done].
  apply (zeroRegion_step _ _ _ d d c); [apply zeroRegion_start| |].
  - by apply adjacent_sym.
  - by apply (zeroRegion_empty idx).
Qed.

(** Completeness, for the region of [idx] alone: when the open [Empty]
    cells of the region have their mine-free neighbours open, all that the
    flood reaches from an open cell of the region is open. *)
Lemma floodClosed_region_complete idx st a c :
  emptyAt tiles idx = true ->
  floodClosed width height tiles (fun x => ~ zeroRegion idx x) st ->
  flood a c -> zeroRegion idx a -> openAt st a = true -> openAt st c = true.
Proof.
  intros He Hcl Hf.
  induction Hf as [a Hs|a n c Hea Hn Hf IH]; intros Hz Ho; [done|].
  assert (Hsn : safeAt tiles n = true).
  { inversion Hf; subst; [done|]. by apply emptyAt_safe. }
  assert (Hon : openAt st n = true) by (apply (Hcl a n); auto).
  destruct (decide (emptyAt tiles n = true)) as [Hen|Hen].
  - apply IH; [|done]. apply (zeroRegion_trans idx a n); [done|].
    by apply zeroRegion_neighbour.
  - inversion Hf; subst; [done|congruence].
Qed.

End Region.

(** ** The loops over the tiles *)

Lemma item_nil {A : Type} (i : Z) : item (@nil A) i = None.
Proof. unfold item. by destruct (decide _). Qed.

Lemma item_negative {A : Type} (a : list A) (i : Z) : i < 0 -> item a i = None.
Proof. intros H. unfold item. destruct (decide _); [lia|done]. Qed.

Lemma item_cons_0 {A : Type} (x : A) (a : list A) : item (x :: a) 0 = Some x.
Proof. done. Qed.

Lemma item_cons_next {A : Type} (x : A) (a : list A) (i : Z) :
  i <> 0 -> item (x :: a) i = item a (i - 1).
Proof. intros H. rewrite item_cons. destruct (decide _); [done|done]. Qed.

Lemma count_zero {A : Type} (p : A -> bool) (l : list A) :
  count p l = 0 <-> forall x, In x l -> p x = false.
Proof.
  induction l as [|x l IH]; simpl; [by split|].
  pose proof (count_bounds p l) as Hb. split.
  - intros H y [<-|Hy].
    + destruct (p x); [lia|done].
    + apply IH; [|done]. destruct (p x); lia.
  - intros H. rewrite (H x) by auto. apply IH. auto.
Qed.

Section TileLoops.

Variable f : TileState -> TileState.

Lemma forEach_bombs_gen l i0 st :
  0 <= i0 -> i0 + Z.of_nat (length l) <= Z.of_nat (length st) ->
  exists st',
    forEach l i0 (fun t i s => if is_bomb t then update s i f else Ok s) st
      = Ok st' /\
    length st' = length st /\
    forall c, item st' c =
      if bombAt l (c - i0) then option_map f (item st c) else item st c.
Proof.
  revert i0 st. induction l as [|t l IH]; intros i0 st H0 Hlen.
  { exists st. split; [done|]. split; [done|]. intros c.
    unfold bombAt. by rewrite item_nil. }
  simpl in Hlen |- *.
  assert (exists s1, (if is_bomb t then update st i0 f else Ok st) = Ok s1 /\
            length s1 = length st /\
            forall c, item s1 c =
              if decide (c = i0)
              then (if is_bomb t then option_map f (item st c) else item st c)
              else item st c) as (s1 & -> & L1 & H1).
  { destruct (is_bomb t).
    - destruct (item_is_Some st i0) as [s Es]; [lia|].
      destruct (update_total st i0 f s Es) as [s1 Hup]. exists s1.
      split; [done|]. apply update_Ok in Hup as (s' & Es' & L & Hitem).
      split; [done|]. intros c. rewrite Hitem.
      destruct (decide _) as [->|]; [|done]. rewrite Es', Es in *.
      simpl. congruence.
    - exists st. split; [done|]. split; [done|]. intros c.
      by destruct (decide _). }
  simpl. destruct (IH (i0 + 1) s1) as (st' & -> & L' & H'); [lia|lia|].
  exists st'. split; [done|]. split; [congruence|]. intros c.
  rewrite H', H1. unfold bombAt.
  destruct (decide (c = i0)) as [->|Hne].
  - rewrite item_negative by lia. by rewrite Z.sub_diag, item_cons_0.
  - rewrite (item_cons_next t) by lia.
    by replace (c - (i0 + 1)) with (c - i0 - 1) by lia.
Qed.

Lemma forEachBomb_total tiles st :
  length st = length tiles ->
  exists st', forEachBomb tiles f st = Ok st' /\ onBombs tiles f st st'.
Proof.
  intros L. destruct (forEach_bombs_gen tiles 0 st) as (st' & H & L' & Hitem);
    [lia|lia|].
  exists st'. split; [done|]. split; [done|]. intros c.
  rewrite Hitem. by rewrite Z.sub_0_r.
Qed.

End TileLoops.

Lemma filterCount_gen l i0 st :
  0 <= i0 -> i0 + Z.of_nat (length l) <= Z.of_nat (length st) ->
  filterCount l i0 (fun t i =>
      if negb (is_bomb t) then
        let* s := prop (item st i) in Ok (negb (isOpen s))
      else Ok false)
  = Ok (count (fun c => safeAt l (c - i0) && negb (openAt st c))
          (seqZ i0 (Z.of_nat (length l)))).
Proof.
  revert i0. induction l as [|t l IH]; intros i0 H0 Hlen; [done|].
  simpl in Hlen. cbn [filterCount length].
  rewrite IH by lia.
  rewrite (seqZ_cons i0) by lia.
  replace (Z.pred (Z.of_nat (S (length l)))) with (Z.of_nat (length l)) by lia.
  replace (Z.succ i0) with (i0 + 1) by lia.
  cbn [count].
  assert (Ehd : safeAt (t :: l) (i0 - i0) = negb (is_bomb t))
    by (unfold safeAt; by rewrite Z.sub_diag, item_cons_0).
  rewrite Ehd. unfold openAt at 2.
  rewrite (count_ext _ (fun c => safeAt (t :: l) (c - i0) && negb (openAt st c))).
  2:{ intros c Hc. apply list_elem_of_In, elem_of_seqZ in Hc. unfold safeAt.
      rewrite (item_cons_next t) by lia.
      by replace (c - (i0 + 1)) with (c - i0 - 1) by lia. }
  destruct (item_is_Some st i0) as [s Es]; [lia|]. rewrite Es.
  destruct (is_bomb t); simpl; [done|].
  destruct (isOpen s); simpl; f_equal; lia.
Qed.

Lemma unopenedNonBombs_total tiles st :
  length st = length tiles ->
  unopenedNonBombs tiles st = Ok (unrevealedSafe tiles st).
Proof.
  intros L. unfold unopenedNonBombs, unrevealedSafe.
  rewrite (filterCount_gen tiles 0 st) by lia.
  f_equal. apply count_ext. intros c _. by rewrite Z.sub_0_r.
Qed.

Lemma unrevealedSafe_zero tiles st :
  unrevealedSafe tiles st = 0 <->
  forall c, safeAt tiles c = true -> openAt st c = true.
Proof.
  unfold unrevealedSafe. rewrite count_zero. split.
  - intros H c Hs. specialize (H c). rewrite Hs in H. simpl in H.
    apply negb_false_iff, H, list_elem_of_In, elem_of_seqZ.
    unfold safeAt in Hs. destruct (item tiles c) eqn:E; [|done].
    apply item_Some in E. lia.
  - intros H c _. destruct (safeAt tiles c) eqn:Hs; [|done].
    by rewrite (H c Hs).
Qed.

(** ** The resolver *)

Section Resolver.

Variables width height : Z.
Variable tiles : list Tile.

Local Abbreviation cascade := (cascade width height tiles).
Local Abbreviation uncoverTile := (uncoverTile width height tiles).
Local Abbreviation floodClosed := (floodClosed width height tiles).
Local Abbreviation reachable := (reachable width height tiles).

Lemma bombAt_safeAt c : bombAt tiles c = true -> safeAt tiles c = false.
Proof. unfold bombAt, safeAt. by destruct (item tiles c) as [[]|]. Qed.

Lemma kind_cases c :
  0 <= c < Z.of_nat (length tiles) ->
  bombAt tiles c = true \/ safeAt tiles c = true.
Proof.
  intros H. destruct (item_is_Some tiles c H) as [t E].
  unfold bombAt, safeAt. rewrite E. destruct (is_bomb t); auto.
Qed.

Lemma onBombs_open st st' c :
  onBombs tiles withOpen st st' ->
  openAt st' c = if bombAt tiles c then
                   (if decide (0 <= c < Z.of_nat (length st)) then true else false)
                 else openAt st c.
Proof.
  intros [_ H]. unfold openAt. rewrite H.
  destruct (bombAt tiles c); [|done].
  destruct (decide _) as [Hc|Hc].
  - destruct (item_is_Some st c Hc) as [s ->]. done.
  - apply item_None in Hc. by rewrite Hc.
Qed.

Lemma onBombs_withOpen_flag st st' c :
  onBombs tiles withOpen st st' -> flagAt st' c = flagAt st c.
Proof.
  intros [_ H]. unfold flagAt. rewrite H.
  destruct (bombAt tiles c); [|done]. by destruct (item st c).
Qed.

Lemma onBombs_flagged_open st st' c :
  onBombs tiles (withFlagged true) st st' -> openAt st' c = openAt st c.
Proof.
  intros [_ H]. unfold openAt. rewrite H.
  destruct (bombAt tiles c); [|done]. by destruct (item st c).
Qed.

Lemma onBombs_flagged_flag st st' c :
  onBombs tiles (withFlagged true) st st' ->
  flagAt st' c = if bombAt tiles c then
                   (if decide (0 <= c < Z.of_nat (length st)) then true else false)
                 else flagAt st c.
Proof.
  intros [_ H]. unfold flagAt. rewrite H.
  destruct (bombAt tiles c); [|done].
  destruct (decide _) as [Hc|Hc].
  - destruct (item_is_Some st c Hc) as [s ->]. done.
  - apply item_None in Hc. by rewrite Hc.
Qed.

(** [uncoverTile], case by case. *)
Lemma uncoverTile_outside st index :
  item st index = None -> uncoverTile st index = Err TypeError.
Proof. intros E. unfold uncoverTile, uncoverTileWithin. by rewrite E. Qed.

Lemma uncoverTile_open st index :
  openAt st index = true -> uncoverTile st index = Ok (st, InProgress).
Proof.
  unfold openAt, uncoverTile, uncoverTileWithin.
  destruct (item st index) as [s|]; [|done]. simpl. by intros ->.
Qed.

Lemma closed_item st index :
  0 <= index < Z.of_nat (length st) -> openAt st index = false ->
  exists s, item st index = Some s /\ isOpen s = false.
Proof.
  intros Hi Hc. destruct (item_is_Some st index Hi) as [s Es].
  exists s. unfold openAt in Hc. by rewrite Es in Hc.
Qed.

Lemma uncoverTile_bomb st index :
  length st = length tiles ->
  openAt st index = false -> bombAt tiles index = true ->
  exists st', uncoverTile st index = Ok (st', Lost) /\
              onBombs tiles withOpen st st'.
Proof.
  intros L Hc Hb. unfold bombAt in Hb.
  destruct (item tiles index) as [t|] eqn:Et; [|done].
  pose proof (item_Some _ _ _ Et) as Hi.
  destruct (closed_item st index) as (s & Es & Hs); [lia|done|].
  destruct (forEachBomb_total withOpen tiles st L) as (st' & Hrun & Hon).
  exists st'. split; [|done].
  unfold uncoverTile, uncoverTileWithin. rewrite Es. simpl. rewrite Hs, Et. simpl.
  rewrite Hb, Hrun. done.
Qed.

Lemma uncoverTile_safe st index :
  length st = length tiles ->
  openAt st index = false -> safeAt tiles index = true ->
  exists st1, cascade (S (length st)) index st = Ok st1 /\
    ((unrevealedSafe tiles st1 = 0 /\
      exists st2, uncoverTile st index = Ok (st2, Won) /\
                  onBombs tiles (withFlagged true) st1 st2) \/
     (unrevealedSafe tiles st1 <> 0 /\
      uncoverTile st index = Ok (st1, InProgress))).
Proof.
  intros L Hc Hsafe. unfold safeAt in Hsafe.
  destruct (item tiles index) as [t|] eqn:Et; [|done].
  pose proof (item_Some _ _ _ Et) as Hi.
  destruct (closed_item st index) as (s & Es & Hs); [lia|done|].
  destruct (cascade_total width height tiles (S (length st)) index st)
    as (st1 & Hrun & _).
  { lia. }
  { pose proof (count_bounds (fun s => negb (isOpen s)) st).
    unfold closedCount. lia. }
  exists st1. split; [done|].
  pose proof (opensSafe_length _ _ _ (cascade_opensSafe _ _ _ _ _ _ _ Hrun)) as L1.
  unfold uncoverTile, uncoverTileWithin. rewrite Es. cbn [bind prop].
  rewrite Hs, Et. cbn [bind prop].
  apply negb_true_iff in Hsafe. rewrite Hsafe, Hrun. cbn [bind].
  rewrite unopenedNonBombs_total by congruence. cbn [bind].
  destruct (Z.eqb_spec (unrevealedSafe tiles st1) 0) as [E|E].
  - left. split; [done|].
    destruct (forEachBomb_total (withFlagged true) tiles st1) as (st2 & -> & Hon);
      [congruence|].
    exists st2. done.
  - right. done.
Qed.

(** The three ways in which [uncoverTile] returns. *)
Lemma uncoverTile_Ok st index st' o :
  length st = length tiles ->
  uncoverTile st index = Ok (st', o) ->
  (openAt st index = true /\ st' = st /\ o = InProgress) \/
  (openAt st index = false /\ bombAt tiles index = true /\
   o = Lost /\ onBombs tiles withOpen st st') \/
  (openAt st index = false /\ safeAt tiles index = true /\
   exists st1, cascade (S (length st)) index st = Ok st1 /\
     ((unrevealedSafe tiles st1 = 0 /\ o = Won /\
       onBombs tiles (withFlagged true) st1 st') \/
      (unrevealedSafe tiles st1 <> 0 /\ o = InProgress /\ st' = st1))).
Proof.
  intros L H.
  destruct (item st index) as [s|] eqn:Es.
  2:{ rewrite uncoverTile_outside in H by done. discriminate. }
  destruct (openAt st index) eqn:Ho.
  { rewrite uncoverTile_open in H by done. injection H as <- <-. auto. }
  right. apply item_Some in Es.
  destruct (kind_cases index) as [Hb|Hs]; [lia| |].
  - left. destruct (uncoverTile_bomb st index L Ho Hb) as (st2 & E & Hon).
    rewrite E in H. injection H as <- <-. auto.
  - right. split; [done|]. split; [done|].
    destruct (uncoverTile_safe st index L Ho Hs)
      as (st1 & Hrun & [(Hz & st2 & E & Hon)|(Hz & E)]);
      exists st1; (split; [done|]); rewrite E in H; injection H as <- <-; auto.
Qed.

Lemma toggleFlag_Ok st index st' :
  toggleFlag st index = Ok st' ->
  exists s, item st index = Some s /\ length st' = length st /\
    forall c, item st' c =
      if decide (c = index)
      then Some {| isOpen := isOpen s; isFlagged := negb (isFlagged s) |}
      else item st c.
Proof.
  unfold toggleFlag. intros H. apply bind_Ok in H as (s & Hs & Hup).
  apply prop_Ok in Hs. apply update_Ok in Hup as (s' & Es' & L & Hitem).
  exists s. split; [done|]. split; [done|]. intros c. rewrite Hitem.
  destruct (decide _); [|done]. rewrite Es' in Hs. by injection Hs as ->.
Qed.

Lemma toggleFlag_open st index st' c :
  toggleFlag st index = Ok st' -> openAt st' c = openAt st c.
Proof.
  intros H. apply toggleFlag_Ok in H as (s & Es & _ & Hitem).
  unfold openAt. rewrite Hitem. destruct (decide _) as [->|]; [|done].
  by rewrite Es.
Qed.

Lemma initial_item st c :
  initialTileStates width height = Ok st ->
  item st c = if decide (0 <= c < width * height)
              then Some {| isOpen := false; isFlagged := false |} else None.
Proof.
  unfold initialTileStates. destruct (decide _) as [|Hlen]; [done|].
  intros [= <-]. destruct (decide _) as [Hc|Hc].
  - unfold item. destruct (decide (0 <= c)); [|lia].
    apply lookup_replicate_2. lia.
  - apply item_None. rewrite length_replicate. lia.
Qed.

Lemma initial_length st :
  initialTileStates width height = Ok st ->
  Z.of_nat (length st) = width * height.
Proof.
  unfold initialTileStates. destruct (decide _) as [|Hlen]; [done|].
  intros [= <-]. rewrite length_replicate. lia.
Qed.

Hypothesis layout : gridLayout width height tiles.

(** Every state of a game has one cell state for each tile. *)
Lemma reachable_length st : reachable st -> length st = length tiles.
Proof.
  induction 1 as [st Hinit|st idx st' o _ L H|st idx st' _ L H].
  - apply initial_length in Hinit. destruct layout as (_ & _ & E). lia.
  - apply uncoverTile_Ok in H; [|done].
    destruct H as [(_ & -> & _)|[(_ & _ & _ & [L' _])
                    |(_ & _ & st1 & Hrun & Hend)]]; [done|congruence|].
    apply cascade_opensSafe, opensSafe_length in Hrun.
    destruct Hend as [(_ & _ & [L' _])|(_ & _ & ->)]; congruence.
  - apply toggleFlag_Ok in H as (_ & _ & L' & _). congruence.
Qed.

Lemma floodClosed_same_open X st st' :
  (forall c, safeAt tiles c = true -> openAt st' c = openAt st c) ->
  floodClosed X st -> floodClosed X st'.
Proof.
  intros E Hcl c d Ho He Hx Hd Hsd.
  rewrite E in Ho |- * by (done || by eapply emptyAt_safe).
  by apply (Hcl c d).
Qed.

(** In every state of a game, an open [Empty] cell has its mine-free
    neighbours open. *)
Lemma reachable_floodClosed st :
  reachable st -> floodClosed (fun _ => False) st.
Proof.
  induction 1 as [st Hinit|st idx st' o Hr IH H|st idx st' _ IH H].
  - intros c d Ho. unfold openAt in Ho. rewrite (initial_item _ _ Hinit) in Ho.
    by destruct (decide _).
  - apply reachable_length in Hr.
    apply uncoverTile_Ok in H; [|done].
    destruct H as [(_ & -> & _)|[(_ & _ & _ & Hon)
                    |(_ & _ & st1 & Hrun & [(_ & _ & Hon)|(_ & _ & ->)])]];
      [done| | |].
    + apply (floodClosed_same_open _ st); [|done]. intros c Hs.
      rewrite (onBombs_open _ _ _ Hon).
      by rewrite (safeAt_not_bomb tiles).
    + apply (floodClosed_same_open _ st1).
      * intros c _. by apply onBombs_flagged_open.
      * by eapply cascade_floodClosed.
    + by eapply cascade_floodClosed.
  - apply (floodClosed_same_open _ st); [|done].
    intros c _. by eapply toggleFlag_open.
Qed.

End Resolver.

(** ** The call stack *)

Lemma forM_mono {X S : Type} (xs : list X) (body1 body2 : X -> S -> Res S) s s' :
  (forall x a b, body1 x a = Ok b -> body2 x a = Ok b) ->
  forM xs body1 s = Ok s' -> forM xs body2 s = Ok s'.
Proof.
  intros H. revert s. induction xs as [|x xs IH]; intros s Hrun; [done|].
  simpl in *. apply bind_Ok in Hrun as (s1 & H1 & Hrun).
  rewrite (H _ _ _ H1). simpl. by apply IH.
Qed.

(** A cascade that ends within some depth ends alike within any larger
    one: its result does not depend on the depth allowed. *)
Lemma cascade_fuel_mono width height tiles fuel fuel' idx st st' :
  (fuel <= fuel')%nat ->
  cascade width height tiles fuel idx st = Ok st' ->
  cascade width height tiles fuel' idx st = Ok st'.
Proof.
  revert fuel' idx st st'.
  induction fuel as [|fuel IH]; intros fuel' idx st st' Hle H; [done|].
  destruct fuel' as [|fuel']; [lia|].
  rewrite cascade_S in H |- *.
  destruct (_ || _); [done|].
  destruct (prop (item st idx)) as [s|]; [|done]. simpl in *.
  destruct (isOpen s); [done|].
  destruct (prop (item tiles idx)) as [t|]; [|done]. simpl in *.
  destruct (is_bomb t); [done|].
  destruct (update st idx withOpen) as [st1|]; [|done]. simpl in *.
  destruct (is_empty t); [|done].
  eapply forM_mono; [|exact H]. intros n a b. apply IH. lia.
Qed.

Lemma forM_Err {X S : Type} (I : S -> Prop) (P : Abort -> Prop) (xs : list X)
  (body : X -> S -> Res S) s e :
  forM xs body s = Err e -> I s ->
  (forall x s1 s2, I s1 -> body x s1 = Ok s2 -> I s2) ->
  (forall x s1 e1, I s1 -> body x s1 = Err e1 -> P e1) ->
  P e.
Proof.
  intros Hrun H0 Hok Herr. revert s Hrun H0.
  induction xs as [|x xs IH]; intros s Hrun H0; simpl in Hrun; [done|].
  destruct (body x s) as [s2|e2] eqn:E; simpl in Hrun.
  - apply (IH s2); [done|]. by apply (Hok x s).
  - injection Hrun as <-. by apply (Herr x s).
Qed.

(** On a state array that covers the board, a cascade fails in one way
    only: the call stack is used up. *)
Lemma cascade_Err width height tiles fuel idx st e :
  (length tiles <= length st)%nat ->
  cascade width height tiles fuel idx st = Err e -> e = StackOverflow.
Proof.
  revert idx st e. induction fuel as [|fuel IH]; intros idx st e L H.
  { simpl in H. congruence. }
  rewrite cascade_S in H.
  destruct (_ || _) eqn:Hrange; [done|].
  destruct (item_is_Some st idx) as [s Es]; [lia|]. rewrite Es in H. simpl in H.
  destruct (isOpen s); [done|].
  destruct (item_is_Some tiles idx) as [t Et]; [lia|]. rewrite Et in H. simpl in H.
  destruct (is_bomb t); [done|].
  destruct (update_total st idx withOpen s Es) as [st1 Hup].
  rewrite Hup in H. simpl in H.
  destruct (is_empty t); [|done].
  apply update_Ok in Hup as (_ & _ & L1 & _).
  apply (forM_Err (fun s => (length tiles <= length s)%nat)
           (fun e => e = StackOverflow) _ _ _ _ H).
  - lia.
  - intros n s1 s2 Hs1 Hrun.
    apply cascade_opensSafe, opensSafe_length in Hrun. lia.
  - intros n s1 e1 Hs1 Hrun. by apply (IH n s1).
Qed.

(** The depth of the call stack decides whether a cascade returns, never
    what it returns; more nested calls than the board has cells are
    enough. *)
Lemma cascade_stack width height tiles stack idx st :
  (length tiles <= length st)%nat ->
  exists st1,
    cascade width height tiles (S (length st)) idx st = Ok st1 /\
    (cascade width height tiles stack idx st = Ok st1 \/
     cascade width height tiles stack idx st = Err StackOverflow) /\
    ((length st < stack)%nat ->
     cascade width height tiles stack idx st = Ok st1).
Proof.
  intros L.
  destruct (cascade_total width height tiles (S (length st)) idx st)
    as (st1 & Hrun & _).
  { lia. }
  { pose proof (count_bounds (fun s => negb (isOpen s)) st).
    unfold closedCount. lia. }
  exists st1. split; [done|]. split.
  - destruct (cascade width height tiles stack idx st) as [a|e] eqn:E.
    + left. f_equal.
      apply (cascade_fuel_mono _ _ _ _ (stack + S (length st))) in E; [|lia].
      apply (cascade_fuel_mono _ _ _ _ (stack + S (length st))) in Hrun; [|lia].
      congruence.
    + right. f_equal. by eapply cascade_Err.
  - intros Hbig. eapply cascade_fuel_mono; [|exact Hrun]. lia.
Qed.

(** A reveal on a call stack of any depth is the reveal on a deep one, or
    fails for the stack. *)
Lemma uncoverTileWithin_cases width height tiles stack st idx :
  length st = length tiles ->
  uncoverTileWithin width height tiles stack st idx
    = uncoverTile width height tiles st idx \/
  uncoverTileWithin width height tiles stack st idx = Err StackOverflow.
Proof.
  intros L. unfold uncoverTile, uncoverTileWithin.
  destruct (prop (item st idx)) as [s|]; cbn [bind]; [|by left].
  destruct (isOpen s); [by left|].
  destruct (prop (item tiles idx)) as [t|]; cbn [bind]; [|by left].
  destruct (is_bomb t); [by left|].
  destruct (cascade_stack width height tiles stack idx st)
    as (st1 & H1 & [H2|H2] & _); [lia| |]; rewrite H2.
  - left. by rewrite H1.
  - by right.
Qed.

Lemma uncoverTileWithin_enough width height tiles stack st idx :
  length st = length tiles -> (length st < stack)%nat ->
  uncoverTileWithin width height tiles stack st idx
    = uncoverTile width height tiles st idx.
Proof.
  intros L Hbig. unfold uncoverTile, uncoverTileWithin.
  destruct (prop (item st idx)) as [s|]; cbn [bind]; [|done].
  destruct (isOpen s); [done|].
  destruct (prop (item tiles idx)) as [t|]; cbn [bind]; [|done].
  destruct (is_bomb t); [done|].
  destruct (cascade_stack width height tiles stack idx st)
    as (st1 & H1 & _ & H2); [lia|]. by rewrite H1, H2.
Qed.

(** What a reveal returns on some call stack, the reveal on a deep stack
    returns: the states of a game on any engine are among [reachable]. *)
Lemma uncoverTileWithin_Ok width height tiles stack st idx r :
  length st = length tiles ->
  uncoverTileWithin width height tiles stack st idx = Ok r ->
  uncoverTile width height tiles st idx = Ok r.
Proof.
  intros L H.
  destruct (uncoverTileWithin_cases width height tiles stack st idx L)
    as [E|E]; congruence.
Qed.

Lemma uncoverTileWithin_outside width height tiles stack st idx :
  item st idx = None ->
  uncoverTileWithin width height tiles stack st idx = Err TypeError.
Proof. intros E. unfold uncoverTileWithin. by rewrite E. Qed.

(** ** Properties of the specification *)

(** *** Cascade correctness *)

(** In a state of a game where an [Empty] cell is unrevealed, its whole
    zero-region is unrevealed. *)
Lemma reachable_region_closed width height tiles st idx c :
  gridLayout width height tiles ->
  reachable width height tiles st ->
  openAt st idx = false ->
  emptyAt tiles idx = true ->
  zeroRegion width height tiles idx c ->
  openAt st c = false.
Proof.
  intros Hlay Hreach Hc He Hz.
  destruct (openAt st c) eqn:Ho; [exfalso|done].
  pose proof (zeroRegion_empty _ _ _ _ _ He Hz) as Hec.
  assert (Hf : flood width height tiles c idx).
  { apply (flood_region _ _ _ Hlay); [done|]. left.
    by apply zeroRegion_sym. }
  pose proof (floodClosed_complete _ _ _ c st idx
                (reachable_floodClosed _ _ _ Hlay _ Hreach) Ho Hf).
  congruence.
Qed.

(** Revealing an [Empty] cell whose connected zero-adjacency region holds
    no revealed cell: the cells that are revealed afterwards are those that
    were revealed before, the cells of that region, and the [Number] cells
    bordering it; the revealed flag of no mine cell changes. *)
Lemma uncoverTile_closed_region_reveals width height tiles st idx :
  wellFormed width height tiles st ->
  emptyAt tiles idx = true ->
  (forall c, zeroRegion width height tiles idx c -> openAt st c = false) ->
  exists st' o,
    uncoverTile width height tiles st idx = Ok (st', o) /\
    (forall c, openAt st' c = true <->
       openAt st c = true \/
       zeroRegion width height tiles idx c \/
       border width height tiles idx c) /\
    (forall c, bombAt tiles c = true -> openAt st' c = openAt st c).
Proof.
  intros [Hlay L] He Hregion.
  assert (Hc : openAt st idx = false) by apply Hregion, zeroRegion_start.
  pose proof (emptyAt_safe _ _ He) as Hs.
  destruct (uncoverTile_safe width height tiles st idx L Hc Hs)
    as (st1 & Hrun & Hend).
  pose proof (cascade_opensSafe _ _ _ _ _ _ _ Hrun) as Hgrow.
  assert (Hcl : floodClosed width height tiles
                  (fun x => ~ zeroRegion width height tiles idx x) st).
  { intros c d Ho Hec Hx _ _. exfalso. apply Hx. intros Hz.
    rewrite (Hregion c Hz) in Ho. discriminate. }
  assert (Hopen : forall c, openAt st1 c = true <->
            openAt st c = true \/
            zeroRegion width height tiles idx c \/
            border width height tiles idx c).
  { intros c. rewrite <- (flood_region _ _ _ Hlay) by done. split.
    - by apply (cascade_sound _ _ _ _ _ _ _ _ Hrun).
    - intros [Ho|Hf]; [by eapply opensSafe_open|].
      apply (floodClosed_region_complete _ _ _ Hlay idx st1 idx c);
        [done| |done|apply zeroRegion_start|by eapply cascade_opens_start].
      by eapply cascade_floodClosed. }
  assert (Hbomb : forall c, bombAt tiles c = true -> openAt st1 c = openAt st c).
  { intros c Hb. destruct (openAt st c) eqn:Eo; [by eapply opensSafe_open|].
    destruct (openAt st1 c) eqn:E1; [|done].
    pose proof (opensSafe_newly _ _ _ _ Hgrow Eo E1) as Hsc.
    apply bombAt_safeAt in Hb. congruence. }
  destruct Hend as [(_ & st2 & E & Hon)|(_ & E)].
  - exists st2, Won. split; [done|]. split; intros c.
    + rewrite (onBombs_flagged_open _ _ _ c Hon). apply Hopen.
    + rewrite (onBombs_flagged_open _ _ _ c Hon). apply Hbomb.
  - exists st1, InProgress. auto.
Qed.



(** *** Loss disclosure *)

(** C3. On every board, revealing an unrevealed mine cell returns the
    outcome [Lost]; afterwards every mine cell is revealed, the revealed flag
    of every other cell is as before, and so is every flagged field. *)
Theorem uncoverTile_mine_discloses width height tiles st idx :
  wellFormed width height tiles st ->
  openAt st idx = false ->
  bombAt tiles idx = true ->
  exists st',
    uncoverTile width height tiles st idx = Ok (st', Lost) /\
    length st' = length st /\
    (forall c, bombAt tiles c = true -> openAt st' c = true) /\
    (forall c, bombAt tiles c = false -> openAt st' c = openAt st c) /\
    (forall c, flagAt st' c = flagAt st c).
Proof.
  intros [_ L] Hc Hb.
  destruct (uncoverTile_bomb width height tiles st idx L Hc Hb) as (st' & E & Hon).
  exists st'. split; [done|]. split; [by destruct Hon|].
  split; [|split]; intros c.
  - intros Hbc. rewrite (onBombs_open _ _ _ c Hon), Hbc.
    destruct (decide _) as [|Hout]; [done|]. exfalso. apply Hout.
    unfold bombAt in Hbc. destruct (item tiles c) eqn:Et; [|done].
    apply item_Some in Et. lia.
  - intros Hbc. by rewrite (onBombs_open _ _ _ c Hon), Hbc.
  - by apply (onBombs_withOpen_flag tiles).
Qed.

Lemma uncoverTile_mine_discloses_witness :
  exists st',
    uncoverTile 5 1 board5x1 (replicate 5 closed) 4 = Ok (st', Lost) /\
    length st' = length (replicate 5 closed) /\
    (forall c, bombAt board5x1 c = true -> openAt st' c = true) /\
    (forall c, bombAt board5x1 c = false ->
       openAt st' c = openAt (replicate 5 closed) c) /\
    (forall c, flagAt st' c = flagAt (replicate 5 closed) c).
Proof.
  apply (uncoverTile_mine_discloses 5 1 board5x1 (replicate 5 closed) 4).
  - unfold wellFormed, gridLayout. simpl. lia.
  - reflexivity.
  - reflexivity.
Defined.

(** *** Win detection *)

Lemma unrevealedSafe_same_open tiles st st' :
  (forall c, openAt st' c = openAt st c) ->
  unrevealedSafe tiles st' = unrevealedSafe tiles st.
Proof.
  intros H. unfold unrevealedSafe. apply count_ext. intros c _. by rewrite H.
Qed.

(** C4. On every board, revealing an unrevealed cell without a mine returns.
    If no cell without a mine is left unrevealed, the outcome is [Won] and
    every mine cell is flagged, the other flags being as before; otherwise
    the outcome is [InProgress] and every flagged field is as before. On the
    2x1 board with one mine, revealing the safe cell gives [Won] and flags
    the mine. *)
Theorem uncoverTile_win_check :
  (forall width height tiles st idx,
     wellFormed width height tiles st ->
     openAt st idx = false ->
     safeAt tiles idx = true ->
     exists st' o,
       uncoverTile width height tiles st idx = Ok (st', o) /\
       ((unrevealedSafe tiles st' = 0 /\ o = Won /\
         (forall c, bombAt tiles c = true -> flagAt st' c = true) /\
         (forall c, bombAt tiles c = false -> flagAt st' c = flagAt st c)) \/
        (unrevealedSafe tiles st' <> 0 /\ o = InProgress /\
         (forall c, flagAt st' c = flagAt st c)))) /\
  uncoverTile 2 1 board2x1 [closed; closed] 0
    = Ok ([{| isOpen := true; isFlagged := false |};
           {| isOpen := false; isFlagged := true |}], Won).
Proof.
  split; [|reflexivity].
  intros width height tiles st idx [_ L] Hc Hs.
  destruct (uncoverTile_safe width height tiles st idx L Hc Hs)
    as (st1 & Hrun & Hend).
  pose proof (cascade_opensSafe _ _ _ _ _ _ _ Hrun) as Hgrow.
  pose proof (opensSafe_length _ _ _ Hgrow) as L1.
  destruct Hend as [(Hz & st2 & E & Hon)|(Hz & E)].
  - exists st2, Won. split; [done|]. left.
    split; [|split; [done|split]].
    + rewrite <- Hz. apply unrevealedSafe_same_open.
      intros c. by apply (onBombs_flagged_open tiles).
    + intros c Hb. rewrite (onBombs_flagged_flag _ _ _ c Hon), Hb.
      destruct (decide _) as [|Hout]; [done|]. exfalso. apply Hout.
      unfold bombAt in Hb. destruct (item tiles c) eqn:Et; [|done].
      apply item_Some in Et. lia.
    + intros c Hb. rewrite (onBombs_flagged_flag _ _ _ c Hon), Hb.
      by apply (opensSafe_flag tiles).
  - exists st1, InProgress. split; [done|]. right.
    split; [done|]. split; [done|].
    intros c. by apply (opensSafe_flag tiles).
Qed.

Lemma uncoverTile_win_check_witness :
  exists st' o,
    uncoverTile 3 3 board3x3 (replicate 9 closed) 4 = Ok (st', o) /\
    ((unrevealedSafe board3x3 st' = 0 /\ o = Won /\
      (forall c, bombAt board3x3 c = true -> flagAt st' c = true) /\
      (forall c, bombAt board3x3 c = false ->
         flagAt st' c = flagAt (replicate 9 closed) c)) \/
     (unrevealedSafe board3x3 st' <> 0 /\ o = InProgress /\
      (forall c, flagAt st' c = flagAt (replicate 9 closed) c))).
Proof.
  apply (proj1 uncoverTile_win_check 3 3 board3x3 (replicate 9 closed) 4).
  - unfold wellFormed, gridLayout. simpl. lia.
  - reflexivity.
  - reflexivity.
Defined.

(** *** Idempotence *)

Lemma uncoverTile_opens_target width height tiles st idx st' o :
  length st = length tiles ->
  uncoverTile width height tiles st idx = Ok (st', o) ->
  openAt st' idx = true.
Proof.
  intros L H. apply uncoverTile_Ok in H; [|done].
  destruct H as [(Ho & -> & _)|[(Hc & Hb & _ & Hon)
                  |(Hc & Hs & st1 & Hrun & Hend)]]; [done| |].
  - rewrite (onBombs_open _ _ _ idx Hon), Hb.
    destruct (decide _) as [|Hout]; [done|]. exfalso. apply Hout.
    unfold bombAt in Hb. destruct (item tiles idx) eqn:Et; [|done].
    apply item_Some in Et. lia.
  - pose proof (cascade_opens_start _ _ _ _ _ _ _ Hrun Hs) as Ho.
    destruct Hend as [(_ & _ & Hon)|(_ & _ & ->)]; [|done].
    by rewrite (onBombs_flagged_open _ _ _ idx Hon).
Qed.

(** C6. Revealing a cell that is already revealed changes nothing: the
    state returned is the state given and the outcome is [InProgress], that
    is, [onGameOver] is not called and no mine is flagged. On every board, a
    second reveal of the same index returns the state of the first. *)
Theorem uncoverTile_revealed_noop width height tiles st idx :
  (openAt st idx = true ->
   uncoverTile width height tiles st idx = Ok (st, InProgress)) /\
  (forall st1 o1,
     wellFormed width height tiles st ->
     uncoverTile width height tiles st idx = Ok (st1, o1) ->
     uncoverTile width height tiles st1 idx = Ok (st1, InProgress)).
Proof.
  split; [apply uncoverTile_open|].
  intros st1 o1 [_ L] H. apply uncoverTile_open.
  by apply (uncoverTile_opens_target width height tiles st idx st1 o1).
Qed.

Lemma uncoverTile_revealed_noop_witness :
  uncoverTile 5 1 board5x1
    [closed; closed; closed; {| isOpen := true; isFlagged := true |}; closed] 3
  = Ok ([closed; closed; closed; {| isOpen := true; isFlagged := true |}; closed],
        InProgress) /\
  uncoverTile 5 1 board5x1
    [closed; closed; closed; closed; {| isOpen := true; isFlagged := false |}] 4
  = Ok ([closed; closed; closed; closed; {| isOpen := true; isFlagged := false |}],
        InProgress).
Proof.
  split.
  - apply (proj1 (uncoverTile_revealed_noop 5 1 board5x1 _ 3)). reflexivity.
  - apply (proj2 (uncoverTile_revealed_noop 5 1 board5x1
                    (replicate 5 closed) 4) _ Lost).
    + unfold wellFormed, gridLayout. simpl. lia.
    + reflexivity.
Defined.

(** *** Flags *)

(** C7. On every board and for every index of the grid, [toggleFlag]
    returns a state in which the flagged field of that cell is flipped,
    whether the cell is revealed or not, and in which its revealed field and
    every other cell are as before. It returns a state array only: no
    outcome is part of its result. *)
Theorem toggleFlag_flips_one width height tiles st idx :
  wellFormed width height tiles st ->
  0 <= idx < width * height ->
  exists st',
    toggleFlag st idx = Ok st' /\
    length st' = length st /\
    flagAt st' idx = negb (flagAt st idx) /\
    (forall c, c <> idx -> item st' c = item st c) /\
    (forall c, openAt st' c = openAt st c).
Proof.
  intros [(_ & _ & Hn) L] Hidx.
  destruct (item_is_Some st idx) as [s Es]; [lia|].
  destruct (update_total st idx (withFlagged (negb (isFlagged s))) s Es)
    as [st' Hup].
  assert (E : toggleFlag st idx = Ok st').
  { unfold toggleFlag. rewrite Es. done. }
  exists st'. split; [done|].
  pose proof (toggleFlag_Ok _ _ _ E) as (s' & Es' & L' & Hitem).
  rewrite Es in Es'. injection Es' as <-.
  split; [done|]. split; [|split].
  - unfold flagAt. rewrite Hitem, Es. by destruct (decide _).
  - intros c Hne. rewrite Hitem. by destruct (decide _).
  - intros c. by apply (toggleFlag_open st idx).
Qed.

Lemma toggleFlag_flips_one_witness :
  exists st',
    toggleFlag
      [closed; closed; closed; {| isOpen := true; isFlagged := false |}; closed] 3
      = Ok st' /\
    length st' = 5%nat /\
    flagAt st' 3 = true /\
    (forall c, c <> 3 ->
       item st' c =
       item [closed; closed; closed; {| isOpen := true; isFlagged := false |}; closed] c) /\
    (forall c, openAt st' c =
       openAt [closed; closed; closed; {| isOpen := true; isFlagged := false |}; closed] c).
Proof.
  apply (toggleFlag_flips_one 5 1 board5x1
    [closed; closed; closed; {| isOpen := true; isFlagged := false |}; closed] 3).
  - unfold wellFormed, gridLayout. simpl. lia.
  - lia.
Defined.

(** *** Monotonicity of revealed *)

(** C8. In every state of a game on a board, a cell that is revealed is
    still revealed after [uncoverTile] and after [toggleFlag], whatever the
    index. *)
Theorem revealed_is_monotonic width height tiles st :
  gridLayout width height tiles ->
  reachable width height tiles st ->
  (forall idx st' o,
     uncoverTile width height tiles st idx = Ok (st', o) ->
     forall c, openAt st c = true -> openAt st' c = true) /\
  (forall idx st',
     toggleFlag st idx = Ok st' ->
     forall c, openAt st c = true -> openAt st' c = true).
Proof.
  intros Hlay Hreach.
  pose proof (reachable_length _ _ _ Hlay _ Hreach) as L.
  split.
  - intros idx st' o H c Ho. apply uncoverTile_Ok in H; [|done].
    destruct H as [(_ & -> & _)|[(_ & _ & _ & Hon)
                    |(_ & _ & st1 & Hrun & Hend)]]; [done| |].
    + rewrite (onBombs_open _ _ _ c Hon).
      destruct (bombAt tiles c); [|done].
      destruct (decide _) as [|Hout]; [done|]. exfalso. apply Hout.
      unfold openAt in Ho. destruct (item st c) eqn:Es; [|done].
      by apply item_Some in Es.
    + pose proof (cascade_opensSafe _ _ _ _ _ _ _ Hrun) as Hgrow.
      pose proof (opensSafe_open _ _ _ c Hgrow Ho) as Ho1.
      destruct Hend as [(_ & _ & Hon)|(_ & _ & ->)]; [|done].
      by rewrite (onBombs_flagged_open _ _ _ c Hon).
  - intros idx st' H c Ho. by rewrite (toggleFlag_open st idx st' c H).
Qed.

Lemma revealed_is_monotonic_witness :
  (forall idx st' o,
     uncoverTile 5 1 board5x1
       [closed; closed; closed; {| isOpen := true; isFlagged := false |}; closed]
       idx = Ok (st', o) ->
     forall c,
       openAt [closed; closed; closed; {| isOpen := true; isFlagged := false |}; closed]
         c = true ->
       openAt st' c = true) /\
  (forall idx st',
     toggleFlag
       [closed; closed; closed; {| isOpen := true; isFlagged := false |}; closed]
       idx = Ok st' ->
     forall c,
       openAt [closed; closed; closed; {| isOpen := true; isFlagged := false |}; closed]
         c = true ->
       openAt st' c = true).
Proof.
  apply (revealed_is_monotonic 5 1 board5x1).
  - unfold gridLayout. simpl. lia.
  - apply (reachable_uncover 5 1 board5x1 (replicate 5 closed) 3 _ InProgress).
    + apply reachable_initial. reflexivity.
    + reflexivity.
Defined.

(** *** Termination *)

Lemma NoDup_bounded_length (l : list Z) (n : Z) :
  0 <= n -> NoDup l -> (forall c, In c l -> 0 <= c < n) ->
  Z.of_nat (length l) <= n.
Proof.
  intros Hn Hnd Hin.
  assert (H : (length l <= length (seqZ 0 n))%nat).
  { apply NoDup_incl_length; [by apply NoDup_ListNoDup|]. intros c Hc.
    apply list_elem_of_In, elem_of_seqZ. specialize (Hin c Hc). lia. }
  rewrite length_seqZ in H. lia.
Qed.

(** C9, as amended. On every board and from every index, the cascade
    returns when the call stack admits more nested calls than the board has
    cells; on a shallower stack it returns or throws for the overflow of the
    stack. When it returns, the cells that it processed, that is, the cells
    that passed its guard and were marked revealed, were processed once each:
    they are the cells that were unrevealed before and are revealed after,
    none twice, so there are at most [width * height] of them. *)
Theorem cascade_terminates width height tiles st idx stack :
  wellFormed width height tiles st ->
  ((length st < stack)%nat ->
   exists st', cascade width height tiles stack idx st = Ok st') /\
  (cascade width height tiles stack idx st = Err StackOverflow \/
   exists st' log,
     cascade width height tiles stack idx st = Ok st' /\
     cascadeLog width height tiles stack idx (st, []) = Ok (st', log) /\
     NoDup log /\
     (forall c, In c log <-> openAt st c = false /\ openAt st' c = true) /\
     Z.of_nat (length log) <= width * height).
Proof.
  intros [(_ & _ & Hn) L].
  destruct (cascade_stack width height tiles stack idx st)
    as (st' & _ & Hcases & Hbig); [lia|].
  split; [intros H; exists st'; by apply Hbig|].
  destruct Hcases as [Hrun|Herr]; [right|by left].
  pose proof (cascadeLog_sim width height tiles stack idx st []) as Hsim.
  rewrite Hrun in Hsim.
  destruct (cascadeLog width height tiles stack idx (st, []))
    as [r|] eqn:Elog; [|done].
  destruct Hsim as (log & -> & Hnd & Hin). rewrite app_nil_r.
  exists st', log. split; [done|]. split; [done|]. split; [done|].
  split; [done|].
  apply NoDup_bounded_length; [lia|done|].
  intros c Hc. apply Hin in Hc as [_ Ho]. unfold openAt in Ho.
  destruct (item st' c) eqn:Es; [|done]. apply item_Some in Es.
  apply cascade_opensSafe, opensSafe_length in Hrun. lia.
Qed.

Lemma cascade_terminates_witness :
  ((length (replicate 9 closed) < 10)%nat ->
   exists st', cascade 3 3 board3x3 10 0 (replicate 9 closed) = Ok st') /\
  (cascade 3 3 board3x3 10 0 (replicate 9 closed) = Err StackOverflow \/
   exists st' log,
     cascade 3 3 board3x3 10 0 (replicate 9 closed) = Ok st' /\
     cascadeLog 3 3 board3x3 10 0 (replicate 9 closed, []) = Ok (st', log) /\
     NoDup log /\
     (forall c, In c log <->
        openAt (replicate 9 closed) c = false /\ openAt st' c = true) /\
     Z.of_nat (length log) <= 3 * 3).
Proof.
  apply (cascade_terminates 3 3 board3x3 (replicate 9 closed) 0 10).
  unfold wellFormed, gridLayout. simpl. lia.
Defined.

(** The cascade along a row: a grid of height 1. *)
Lemma inGrid_row w r c :
  inGrid w 1 r c = (r =? 0) && (0 <=? c) && (c <? w).
Proof.
  unfold inGrid.
  destruct (Z.leb_spec 0 r), (Z.ltb_spec r 1), (Z.eqb_spec r 0); simpl;
    try reflexivity; lia.
Qed.

Lemma neighbours_row w idx :
  0 <= idx -> idx + 1 < w ->
  neighbours w 1 idx = (if 0 <? idx then [idx - 1] else []) ++ [idx; idx + 1].
Proof.
  intros H0 H1. unfold neighbours, around.
  rewrite Z.div_small, Z.rem_small by lia.
  cbn [flat_map app]. rewrite !inGrid_row.
  change (0 + -1 =? 0) with false. change (0 + 1 =? 0) with false.
  change (0 + 0 =? 0) with true. cbn [andb app].
  rewrite (proj2 (Z.leb_le 0 (idx + 0))), (proj2 (Z.ltb_lt (idx + 0) w)),
    (proj2 (Z.leb_le 0 (idx + 1))), (proj2 (Z.ltb_lt (idx + 1) w)),
    (proj2 (Z.ltb_lt (idx + -1) w)) by lia.
  rewrite andb_true_r.
  destruct (Z.ltb_spec 0 idx).
  - rewrite (proj2 (Z.leb_le 0 (idx + -1))) by lia. simpl.
    repeat f_equal; lia.
  - rewrite (proj2 (Z.leb_gt 0 (idx + -1))) by lia. simpl.
    repeat f_equal; lia.
Qed.

Lemma rowBoard_length n : length (rowBoard n) = (n + 2)%nat.
Proof.
  unfold rowBoard. rewrite length_app, length_map, length_seqZ. simpl. lia.
Qed.

Lemma rowBoard_empty n idx :
  0 <= idx < Z.of_nat n -> item (rowBoard n) idx = Some (EmptyTile idx).
Proof.
  intros H. unfold rowBoard, item. destruct (decide (0 <= idx)); [|lia].
  change (map EmptyTile (seqZ 0 (Z.of_nat n)))
    with (EmptyTile <$> seqZ 0 (Z.of_nat n)).
  rewrite lookup_app_l by (rewrite length_fmap, length_seqZ; lia).
  rewrite list_lookup_fmap, lookup_seqZ_lt by lia. simpl.
  repeat f_equal; lia.
Qed.

Lemma cascade_open_returns width height tiles fuel idx st :
  openAt st idx = true ->
  cascade width height tiles (S fuel) idx st = Ok st.
Proof.
  intros Ho. rewrite cascade_S. destruct (_ || _); [done|].
  unfold openAt in Ho. destruct (item st idx) as [s|]; [|done]. simpl.
  by rewrite Ho.
Qed.

(** On the row board, where the cells before [idx] are revealed and the
    others are not, the cascade from [idx] makes a nested call for every
    [Empty] cell from [idx] on, and one more for the [Number] cell: a stack
    that admits no more calls than there are [Empty] cells from [idx] on
    overflows. *)
Lemma cascade_row_overflow n fuel idx st :
  length st = (n + 2)%nat ->
  0 <= idx -> idx + Z.of_nat fuel <= Z.of_nat n ->
  (forall c, 0 <= c < idx -> openAt st c = true) ->
  (forall c, idx <= c < Z.of_nat n + 2 -> openAt st c = false) ->
  cascade (Z.of_nat n + 2) 1 (rowBoard n) fuel idx st = Err StackOverflow.
Proof.
  revert idx st. induction fuel as [|fuel IH]; intros idx st L H0 Hn Hop Hcl.
  { done. }
  rewrite cascade_S, rowBoard_length.
  assert (Hrange : (idx <? 0) || (idx >=? Z.of_nat (n + 2)) = false).
  { apply orb_false_iff. split; [apply Z.ltb_ge; lia|].
    rewrite Z.geb_leb. apply Z.leb_gt. lia. }
  rewrite Hrange.
  destruct (closed_item st idx) as (s & Es & Hs); [lia|apply Hcl; lia|].
  rewrite Es. cbn [bind prop]. rewrite Hs.
  rewrite rowBoard_empty by lia. cbn [bind prop is_bomb is_empty type].
  destruct (update_total st idx withOpen s Es) as [st1 Hup].
  rewrite Hup. cbn [bind].
  assert (Ho1 : forall c, 0 <= c < idx + 1 -> openAt st1 c = true).
  { intros c Hc. destruct (decide (c = idx)) as [->|Hne].
    - by apply (update_open st).
    - apply update_Ok in Hup as (s' & _ & _ & Hitem).
      unfold openAt. rewrite Hitem. destruct (decide _); [done|].
      apply Hop. lia. }
  assert (Hc1 : forall c, idx + 1 <= c < Z.of_nat n + 2 -> openAt st1 c = false).
  { intros c Hc. apply update_Ok in Hup as (s' & _ & _ & Hitem).
    unfold openAt. rewrite Hitem. destruct (decide _); [lia|].
    apply Hcl. lia. }
  assert (L1 : length st1 = (n + 2)%nat).
  { apply update_Ok in Hup as (_ & _ & -> & _). done. }
  assert (Hnext : cascade (Z.of_nat n + 2) 1 (rowBoard n) fuel (idx + 1) st1
                  = Err StackOverflow) by (apply IH; [done|lia|lia|done|done]).
  rewrite neighbours_row by lia.
  destruct fuel as [|fuel]; [by destruct (0 <? idx)|].
  destruct (Z.ltb_spec 0 idx); cbn [app forM].
  - rewrite (cascade_open_returns _ _ _ _ (idx - 1)) by (apply Ho1; lia).
    cbn [bind]. rewrite cascade_open_returns by (apply Ho1; lia).
    cbn [bind]. by rewrite Hnext.
  - rewrite cascade_open_returns by (apply Ho1; lia).
    cbn [bind]. by rewrite Hnext.
Qed.

Lemma closed_states_open n c : openAt (replicate n closed) c = false.
Proof.
  unfold openAt. destruct (item (replicate n closed) c) as [s|] eqn:E; [|done].
  unfold item in E. destruct (decide (0 <= c)); [|done].
  by apply lookup_replicate in E as [-> _].
Qed.

(** The row board of five cells is a board that the generator returns, and
    on a call stack that admits three nested calls the cascade from cell 0
    of its initial state overflows: the calls for cells 0, 1 and 2 are
    pending when cell 3 is called. On a stack that admits four it returns. *)
Example cascade_row_of_five :
  generateInitialGrid 5 1 1 [4] = Ok (rowBoard 3) /\
  initialTileStates 5 1 = Ok (replicate 5 closed) /\
  cascade 5 1 (rowBoard 3) 3 0 (replicate 5 closed) = Err StackOverflow /\
  cascade 5 1 (rowBoard 3) 4 0 (replicate 5 closed)
    = Ok [opened; opened; opened; opened; closed].
Proof. repeat split; vm_compute; reflexivity. Qed.

(** C9, as first stated: whatever number of nested calls the call stack
    admits, the cascade does not return on every board. On the row board
    with that many [Empty] cells, the cascade from cell 0 of the initial
    state overflows the stack; [reveal_overflows_on_generated_row] shows
    that this is a first click on a board of the generator. *)
Lemma cascade_terminates_counterexample :
  ~ (exists stack, forall width height tiles st idx,
       wellFormed width height tiles st ->
       exists st' log,
         cascade width height tiles stack idx st = Ok st' /\
         cascadeLog width height tiles stack idx (st, []) = Ok (st', log) /\
         NoDup log /\
         (forall c, In c log <-> openAt st c = false /\ openAt st' c = true) /\
         Z.of_nat (length log) <= width * height).
Proof.
  intros [stack H].
  destruct (H (Z.of_nat stack + 2) 1 (rowBoard stack)
              (replicate (stack + 2) closed) 0) as (st' & log & Hrun & _).
  { unfold wellFormed, gridLayout.
    rewrite rowBoard_length, length_replicate. lia. }
  rewrite cascade_row_overflow in Hrun; [done| | | | |].
  - by rewrite length_replicate.
  - lia.
  - lia.
  - lia.
  - intros c _. apply closed_states_open.
Qed.

(** *** Indices outside the grid *)

(** C10. On every board, [uncoverTile] and [toggleFlag] called with an
    index outside [0, width * height) throw a [TypeError]: neither returns a
    state, so no cell state is replaced, and the index is not clamped. *)
Theorem out_of_range_index_throws width height tiles st idx :
  wellFormed width height tiles st ->
  ~ (0 <= idx < width * height) ->
  uncoverTile width height tiles st idx = Err TypeError /\
  toggleFlag st idx = Err TypeError.
Proof.
  intros [(_ & _ & Hn) L] Hout.
  assert (E : item st idx = None) by (apply item_None; lia).
  split.
  - by apply uncoverTile_outside.
  - unfold toggleFlag. by rewrite E.
Qed.

Lemma out_of_range_index_throws_witness :
  (uncoverTile 5 1 board5x1 (replicate 5 closed) 5 = Err TypeError /\
   toggleFlag (replicate 5 closed) 5 = Err TypeError) /\
  (uncoverTile 5 1 board5x1 (replicate 5 closed) (-1) = Err TypeError /\
   toggleFlag (replicate 5 closed) (-1) = Err TypeError).
Proof.
  split.
  - apply (out_of_range_index_throws 5 1 board5x1 (replicate 5 closed) 5).
    + unfold wellFormed, gridLayout. simpl. lia.
    + lia.
  - apply (out_of_range_index_throws 5 1 board5x1 (replicate 5 closed) (-1)).
    + unfold wellFormed, gridLayout. simpl. lia.
    + lia.
Defined.

(** *** Flag non-interference *)

Section FlagsIgnored.

Variables width height : Z.
Variable tiles : list Tile.

Local Abbreviation cascade := (cascade width height tiles).
Local Abbreviation uncoverTile := (uncoverTile width height tiles).

Lemma sameOpen_item a b i :
  sameOpen a b ->
  (item a i = None /\ item b i = None) \/
  (exists s1 s2, item a i = Some s1 /\ item b i = Some s2 /\
                 isOpen s1 = isOpen s2).
Proof.
  intros [L H]. specialize (H i). unfold openAt in H.
  destruct (item a i) as [s1|] eqn:Ea, (item b i) as [s2|] eqn:Eb.
  - right. eauto.
  - apply item_Some in Ea. apply item_None in Eb. lia.
  - apply item_Some in Eb. apply item_None in Ea. lia.
  - by left.
Qed.

Lemma update_sameOpen a b i f1 f2 :
  (forall s1 s2, isOpen s1 = isOpen s2 -> isOpen (f1 s1) = isOpen (f2 s2)) ->
  sameOpen a b ->
  simRes sameOpen (update a i f1) (update b i f2).
Proof.
  intros Hf Hab.
  destruct (sameOpen_item a b i Hab) as [[Ea Eb]|(s1 & s2 & Ea & Eb & Es)].
  { unfold update. by rewrite Ea, Eb. }
  destruct (update_total a i f1 s1 Ea) as [a' Ha].
  destruct (update_total b i f2 s2 Eb) as [b' Hb].
  rewrite Ha, Hb. simpl.
  apply update_Ok in Ha as (s1' & Ea' & La & Hia).
  apply update_Ok in Hb as (s2' & Eb' & Lb & Hib).
  destruct Hab as [L H]. split; [congruence|].
  intros c. unfold openAt. rewrite Hia, Hib.
  destruct (decide _); [|apply H].
  apply Hf. congruence.
Qed.

Lemma cascade_sameOpen fuel idx a b :
  sameOpen a b -> simRes sameOpen (cascade fuel idx a) (cascade fuel idx b).
Proof.
  revert idx a b. induction fuel as [|fuel IH]; intros idx a b Hab; [done|].
  rewrite !cascade_S.
  destruct (_ || _); [done|].
  destruct (sameOpen_item a b idx Hab) as [[-> ->]|(s1 & s2 & -> & -> & Es)];
    [done|].
  simpl. rewrite <- Es. destruct (isOpen s1); [done|].
  destruct (prop (item tiles idx)) as [t|]; [|done]. simpl.
  destruct (is_bomb t); [done|].
  eapply simRes_bind; [by apply update_sameOpen|].
  intros a1 b1 Hab1. destruct (is_empty t); [|done].
  apply forM_sim; [done|]. intros n a2 b2. apply IH.
Qed.

Lemma forEachBomb_sameOpen f1 f2 a b :
  (forall s1 s2, isOpen s1 = isOpen s2 -> isOpen (f1 s1) = isOpen (f2 s2)) ->
  sameOpen a b ->
  simRes sameOpen (forEachBomb tiles f1 a) (forEachBomb tiles f2 b).
Proof.
  intros Hf Hab. unfold forEachBomb. apply forEach_sim; [done|].
  intros t i a1 b1 Hab1. destruct (is_bomb t); [|done].
  by apply update_sameOpen.
Qed.

Lemma filterCount_ext {X : Type} (l : list X) i0 (p q : X -> Z -> Res bool) :
  (forall t i, p t i = q t i) -> filterCount l i0 p = filterCount l i0 q.
Proof.
  intros H. revert i0. induction l as [|t l IH]; intros i0; [done|].
  simpl. by rewrite H, IH.
Qed.

Lemma unopenedNonBombs_sameOpen a b :
  sameOpen a b -> unopenedNonBombs tiles a = unopenedNonBombs tiles b.
Proof.
  intros Hab. apply filterCount_ext. intros t i.
  destruct (negb (is_bomb t)); [|done].
  destruct (sameOpen_item a b i Hab) as [[-> ->]|(s1 & s2 & -> & -> & Es)];
    [done|].
  simpl. by rewrite Es.
Qed.

Lemma uncoverTile_sameOpen a b idx :
  sameOpen a b ->
  simRes (fun r1 r2 => sameOpen (fst r1) (fst r2) /\ snd r1 = snd r2)
    (uncoverTile a idx) (uncoverTile b idx).
Proof.
  intros Hab. unfold uncoverTile, uncoverTileWithin.
  destruct (sameOpen_item a b idx Hab) as [[-> ->]|(s1 & s2 & -> & -> & Es)];
    [done|].
  cbn [bind prop]. rewrite <- Es. destruct (isOpen s1); [done|].
  destruct (prop (item tiles idx)) as [t|]; [|done]. cbn [bind].
  destruct (is_bomb t).
  - eapply simRes_bind.
    + apply (forEachBomb_sameOpen withOpen withOpen); [done|done].
    + intros a1 b1 Hab1. done.
  - destruct Hab as [L H]. rewrite <- L.
    eapply simRes_bind; [apply cascade_sameOpen; by split|].
    intros a1 b1 Hab1. rewrite (unopenedNonBombs_sameOpen a1 b1 Hab1).
    destruct (unopenedNonBombs tiles b1) as [n|]; [|done]. cbn [bind].
    destruct (n =? 0); [|done].
    eapply simRes_bind.
    + apply (forEachBomb_sameOpen (withFlagged true) (withFlagged true));
        [done|done].
    + intros a2 b2 Hab2. done.
Qed.

End FlagsIgnored.

(** C5. On every board and for every index, two states that agree on every
    revealed field, and so differ in flagged fields only, give the same
    reveal: if one run returns, the other returns the same outcome and a
    state with the same revealed cells, and if one run throws, the other
    throws alike. *)
Theorem flags_never_alter_reveal width height tiles st1 st2 idx :
  wellFormed width height tiles st1 ->
  sameOpen st1 st2 ->
  (forall st1' o,
     uncoverTile width height tiles st1 idx = Ok (st1', o) ->
     exists st2',
       uncoverTile width height tiles st2 idx = Ok (st2', o) /\
       sameOpen st1' st2') /\
  (forall e,
     uncoverTile width height tiles st1 idx = Err e ->
     uncoverTile width height tiles st2 idx = Err e).
Proof.
  intros _ Hsame.
  pose proof (uncoverTile_sameOpen width height tiles st1 st2 idx Hsame) as Hsim.
  destruct (uncoverTile width height tiles st1 idx) as [[st1' o1]|e1],
           (uncoverTile width height tiles st2 idx) as [[st2' o2]|e2];
    simpl in Hsim; try done.
  - destruct Hsim as [Hs <-]. split; [|done].
    intros st o [= <- <-]. eauto.
  - subst e2. split; [done|]. by intros e [= <-].
Qed.

Lemma flags_never_alter_reveal_witness :
  (forall st1' o,
     uncoverTile 3 3 board3x3 (replicate 9 closed) 0 = Ok (st1', o) ->
     exists st2',
       uncoverTile 3 3 board3x3
         (replicate 9 {| isOpen := false; isFlagged := true |}) 0 = Ok (st2', o) /\
       sameOpen st1' st2') /\
  (forall e,
     uncoverTile 3 3 board3x3 (replicate 9 closed) 0 = Err e ->
     uncoverTile 3 3 board3x3
       (replicate 9 {| isOpen := false; isFlagged := true |}) 0 = Err e).
Proof.
  apply (flags_never_alter_reveal 3 3 board3x3).
  - unfold wellFormed, gridLayout. simpl. lia.
  - split; [reflexivity|]. intros c. unfold openAt.
    destruct (item (replicate 9 closed) c) as [s|] eqn:E1,
             (item (replicate 9 {| isOpen := false; isFlagged := true |}) c)
               as [s'|] eqn:E2; try reflexivity.
    + unfold item in E1, E2. destruct (decide (0 <= c)); [|discriminate].
      apply lookup_replicate in E1 as [-> _].
      apply lookup_replicate in E2 as [-> _]. reflexivity.
    + apply item_Some in E1. apply item_None in E2. simpl in *. lia.
    + apply item_Some in E2. apply item_None in E1. simpl in *. lia.
Defined.

(** ** The generator *)

Lemma count_filter {A : Type} (p : A -> bool) (l : list A) :
  count p l = Z.of_nat (length (List.filter p l)).
Proof.
  induction l as [|x l IH]; simpl; [done|].
  destruct (p x); simpl; lia.
Qed.

(** Two lists without repetition have as many elements that satisfy [p]
    and [q] when these elements are the same. *)
Lemma count_NoDup {A : Type} (p q : A -> bool) (l1 l2 : list A) :
  NoDup l1 -> NoDup l2 ->
  (forall x, In x l1 /\ p x = true <-> In x l2 /\ q x = true) ->
  count p l1 = count q l2.
Proof.
  intros N1 N2 H. rewrite !count_filter. f_equal.
  apply Permutation_length, NoDup_Permutation.
  - by apply NoDup_ListNoDup, List.NoDup_filter, NoDup_ListNoDup.
  - by apply NoDup_ListNoDup, List.NoDup_filter, NoDup_ListNoDup.
  - intros x. rewrite !list_elem_of_In, !filter_In. apply H.
Qed.

Lemma NoDup_flat_map {A B : Type} (g : A -> list B) (l : list A) :
  List.NoDup l ->
  (forall x, In x l -> List.NoDup (g x)) ->
  (forall x y b, In x l -> In y l -> In b (g x) -> In b (g y) -> x = y) ->
  List.NoDup (flat_map g l).
Proof.
  induction 1 as [|x l Hx Hnd IH]; intros Hg Hinj; simpl; [constructor|].
  apply List.NoDup_app.
  - apply Hg. by left.
  - apply IH.
    + intros y Hy. apply Hg. by right.
    + intros y z b Hy Hz. apply Hinj; by right.
  - intros b Hb Hb'. apply in_flat_map in Hb' as (y & Hy & Hby).
    apply Hx. rewrite (Hinj x y b); [done|by left|by right|done|done].
Qed.

Lemma NoDup_around : List.NoDup around.
Proof. unfold around. repeat constructor; simpl; lia. Qed.

Section Recount.

Variables width height : Z.
Hypothesis width_pos : 0 < width.

Local Abbreviation neighbours := (neighbours width height).

(** The loops reach no cell twice. *)
Lemma NoDup_neighbours idx : NoDup (neighbours idx).
Proof.
  apply NoDup_ListNoDup. unfold neighbours.
  apply NoDup_flat_map; [apply NoDup_around| |].
  - intros i _. apply NoDup_flat_map; [apply NoDup_around| |].
    + intros j _. destruct (inGrid _ _ _ _); repeat constructor. by intros [].
    + intros j j' b _ _.
      destruct (inGrid _ _ _ _), (inGrid _ _ _ _); simpl; try tauto.
      intros [<-|[]] [E|[]]. lia.
  - intros i i' b _ _ Hb Hb'.
    apply in_flat_map in Hb as (j & _ & Hb).
    apply in_flat_map in Hb' as (j' & _ & Hb').
    destruct (inGrid _ _ _ (_ + j)) eqn:G; [|done].
    destruct (inGrid _ _ _ (_ + j')) eqn:G'; [|done].
    apply inGrid_true in G as [_ G]. apply inGrid_true in G' as [_ G'].
    destruct Hb as [<-|[]]. destruct Hb' as [E|[]].
    assert (E' : ((idx / width + i') * width + (Z.rem idx width + j')) / width
                 = ((idx / width + i) * width + (Z.rem idx width + j)) / width)
      by (by rewrite E).
    rewrite !cell_div in E' by done. lia.
Qed.

Variable tiles : list Tile.
Hypothesis tiles_length : Z.of_nat (length tiles) = width * height.

(** The mines that the loops count around a cell without a mine are the
    mines of the direct recount. *)
Lemma count_neighbours_recount c :
  safeAt tiles c = true ->
  count (bombAt tiles) (neighbours c) = recount width height tiles c.
Proof.
  intros Hs. unfold recount.
  assert (Hc : 0 <= c < width * height).
  { unfold safeAt in Hs. destruct (item tiles c) eqn:E; [|done].
    apply item_Some in E. lia. }
  apply count_NoDup; [apply NoDup_neighbours|apply NoDup_seqZ|].
  intros d. rewrite (neighbours_adjacent _ _ width_pos c d Hc).
  rewrite <- list_elem_of_In, elem_of_seqZ, andb_true_iff.
  rewrite (adjacentb_true width height c d). split.
  - intros [[->|Hadj] Hb].
    + apply safeAt_not_bomb in Hs. congruence.
    + split; [|done]. destruct Hadj as (_ & ? & _). lia.
  - intros [_ [Hadj Hb]]. auto.
Qed.

End Recount.

Section Generator.

Variables width height numBoms : Z.

Local Abbreviation placeBombs := (placeBombs numBoms).

Lemma item_fresh_positions n c :
  item (map EmptyTile (seqZ 0 n)) c =
    if decide (0 <= c < n) then Some (EmptyTile c) else None.
Proof.
  change (map EmptyTile (seqZ 0 n)) with (EmptyTile <$> seqZ 0 n).
  unfold item. destruct (decide (0 <= c)) as [H0|H0].
  - rewrite list_lookup_fmap. destruct (decide (0 <= c < n)) as [H|H].
    + rewrite lookup_seqZ_lt by lia. simpl. f_equal. f_equal. lia.
    + rewrite lookup_seqZ_ge by lia. done.
  - destruct (decide _); [lia|done].
Qed.

Lemma count_fresh_positions (l : list Z) : count is_bomb (map EmptyTile l) = 0.
Proof. induction l as [|x l IH]; simpl; [done|]. by rewrite IH. Qed.

(** The loop that places the mines ends with [numBoms] of them. *)
Lemma placeBombs_Ok draws positions bombsPlaced positions' :
  placeBombs draws positions bombsPlaced = Ok positions' ->
  bombsOrEmpty positions ->
  count is_bomb positions = bombsPlaced ->
  bombsPlaced <= numBoms ->
  length positions' = length positions /\
  bombsOrEmpty positions' /\
  count is_bomb positions' = numBoms.
Proof.
  revert positions bombsPlaced.
  induction draws as [|r draws IH]; intros positions k H Hinv Hcount Hle;
    simpl in H.
  { destruct (decide (k < numBoms)); [done|].
    injection H as <-. split; [done|]. split; [done|]. lia. }
  destruct (decide (k < numBoms)) as [Hlt|Hge].
  2:{ injection H as <-. split; [done|]. split; [done|]. lia. }
  apply bind_Ok in H as (t & Ht & H). apply prop_Ok in Ht.
  destruct (is_empty t) eqn:He.
  - apply bind_Ok in H as (positions1 & Hassign & H).
    apply assign_Ok in Hassign as [Hr ->].
    apply IH in H as (L & Hinv' & Hcount').
    + rewrite length_insert in L. done.
    + intros c t' E. rewrite item_insert in E by done.
      destruct (decide (c = r)) as [->|]; [|by apply Hinv].
      injection E as <-. by right.
    + assert (Hl : positions !! Z.to_nat r = Some t).
      { unfold item in Ht. by destruct (decide _). }
      rewrite (count_insert _ _ _ t) by done.
      destruct t; try done. simpl. lia.
    + lia.
  - by apply IH in H.
Qed.

Lemma mapi_Ok {X Y : Type} (l : list X) i0 (f : X -> Z -> Res Y) l' :
  mapi l i0 f = Ok l' ->
  length l' = length l /\
  forall c t, item l c = Some t ->
    exists y, f t (i0 + c) = Ok y /\ item l' c = Some y.
Proof.
  revert i0 l'. induction l as [|x l IH]; intros i0 l' H; simpl in H.
  { injection H as <-. split; [done|]. intros c t E. by rewrite item_nil in E. }
  apply bind_Ok in H as (y & Hy & H). apply bind_Ok in H as (ys & Hys & H).
  injection H as <-. apply IH in Hys as [L Hitem].
  split; [simpl; congruence|]. intros c t E. rewrite item_cons in E. rewrite item_cons.
  destruct (decide (c = 0)) as [->|Hne].
  - injection E as <-. exists y. by rewrite Z.add_0_r.
  - destruct (Hitem _ _ E) as (y' & Hy' & E'). exists y'.
    split; [|done]. by replace (i0 + c) with (i0 + 1 + (c - 1)) by lia.
Qed.

Lemma count_loop positions ns z k :
  forM ns (fun n count =>
    let* t := prop (item positions n) in
    Ok (if is_bomb t then count + 1 else count)) z = Ok k ->
  k = z + count (bombAt positions) ns.
Proof.
  revert z. induction ns as [|n ns IH]; intros z H; simpl in H.
  { injection H as <-. simpl. lia. }
  apply bind_Ok in H as (z1 & H1 & H). apply bind_Ok in H1 as (t & Ht & H1).
  apply prop_Ok in Ht. injection H1 as <-. apply IH in H. subst k.
  simpl. unfold bombAt at 2. rewrite Ht. destruct (is_bomb t); lia.
Qed.

Lemma countAdjacentBombs_Ok c positions k :
  countAdjacentBombs width height c positions = Ok k ->
  k = count (bombAt positions) (neighbours width height c).
Proof.
  unfold countAdjacentBombs. intros H.
  rewrite (loops_neighbours width height c
    (fun n count =>
       let* t := prop (item positions n) in
       Ok (if is_bomb t then count + 1 else count)) 0) in H.
  apply count_loop in H. lia.
Qed.

Lemma count_pointwise {A B : Type} (p : A -> bool) (q : B -> bool) l l' :
  length l = length l' ->
  (forall c t t', item l c = Some t -> item l' c = Some t' -> p t = q t') ->
  count p l = count q l'.
Proof.
  revert l'. induction l as [|x l IH]; intros [|x' l'] L H; try done.
  simpl. rewrite (H 0 x x') by done. rewrite (IH l'); [done|by injection L|].
  intros c t t' E E'. apply (H (c + 1)).
  - rewrite item_cons. destruct (decide _) as [Hc|Hc].
    + apply item_Some in E. lia.
    + by replace (c + 1 - 1) with c by lia.
  - rewrite item_cons. destruct (decide _) as [Hc|Hc].
    + apply item_Some in E. lia.
    + by replace (c + 1 - 1) with c by lia.
Qed.

Lemma placeBombs_in_order (m : nat) k positions :
  0 <= k -> k + Z.of_nat m = numBoms ->
  numBoms <= Z.of_nat (length positions) ->
  (forall c, k <= c < Z.of_nat (length positions) ->
     item positions c = Some (EmptyTile c)) ->
  exists positions', placeBombs (seqZ k (Z.of_nat m)) positions k = Ok positions'.
Proof.
  revert k positions. induction m as [|m IH]; intros k positions H0 Hk Hn Hfree.
  { simpl. destruct (decide (k < numBoms)); [lia|eauto]. }
  rewrite (seqZ_cons k) by lia. cbn [placeBombs].
  destruct (decide (k < numBoms)); [|lia].
  rewrite (Hfree k) by lia. cbn [bind prop is_empty].
  rewrite assign_in_range by lia. cbn [bind].
  replace (Z.pred (Z.of_nat (S m))) with (Z.of_nat m) by lia.
  replace (Z.succ k) with (k + 1) by lia.
  apply IH; [lia|lia|rewrite length_insert; lia|].
  intros c Hc. rewrite length_insert in Hc.
  rewrite item_insert by lia. destruct (decide _); [lia|]. apply Hfree. lia.
Qed.

Lemma mapi_total {X Y : Type} (l : list X) i0 (f : X -> Z -> Res Y) :
  (forall c t, item l c = Some t -> exists y, f t (i0 + c) = Ok y) ->
  exists l', mapi l i0 f = Ok l'.
Proof.
  revert i0. induction l as [|x l IH]; intros i0 H; simpl; [eauto|].
  destruct (H 0 x) as [y Hy]; [done|]. rewrite Z.add_0_r in Hy. rewrite Hy.
  destruct (IH (i0 + 1)) as [ys Hys].
  - intros c t E. destruct (H (c + 1) t) as [y' Hy'].
    + rewrite item_cons. destruct (decide _) as [Hc|_].
      * apply item_Some in E. lia.
      * by replace (c + 1 - 1) with c by lia.
    + exists y'. by replace (i0 + 1 + c) with (i0 + (c + 1)) by lia.
  - simpl. rewrite Hys. simpl. eauto.
Qed.

Lemma countAdjacentBombs_total c positions :
  0 < width -> Z.of_nat (length positions) = width * height ->
  exists k, countAdjacentBombs width height c positions = Ok k.
Proof.
  intros Hw L. unfold countAdjacentBombs.
  rewrite (loops_neighbours width height c
    (fun n count =>
       let* t := prop (item positions n) in
       Ok (if is_bomb t then count + 1 else count)) 0).
  destruct (forM_total (fun _ => True) (neighbours width height c)
    (fun n count =>
       let* t := prop (item positions n) in
       Ok (if is_bomb t then count + 1 else count)) 0) as (k & Hk & _);
    [done| |eauto].
  intros n z Hn _. apply (neighbours_range _ _ Hw) in Hn.
  destruct (item_is_Some positions n) as [t ->]; [lia|]. simpl. eauto.
Qed.

(** The generator returns a board when the draws are [0], ..., 
    [numBoms - 1]. *)
Lemma generateInitialGrid_returns :
  1 <= width -> 1 <= height -> 1 <= numBoms <= width * height - 1 ->
  width * height < 2 ^ 32 ->
  exists tiles,
    generateInitialGrid width height numBoms (seqZ 0 numBoms) = Ok tiles.
Proof.
  intros Hw Hh Hn Hmax. unfold generateInitialGrid.
  destruct (decide (width * height < 0 \/ 2 ^ 32 <= width * height)); [lia|].
  destruct (placeBombs_in_order (Z.to_nat numBoms) 0
              (map EmptyTile (seqZ 0 (width * height))))
    as [positions Hplace].
  - lia.
  - lia.
  - rewrite length_map, length_seqZ. lia.
  - intros c Hc. rewrite length_map, length_seqZ in Hc.
    rewrite item_fresh_positions. destruct (decide _); [done|lia].
  - rewrite Z2Nat.id in Hplace by lia. rewrite Hplace. cbn [bind].
    pose proof Hplace as Hinv. apply placeBombs_Ok in Hinv as (L & _ & _).
    + rewrite length_map, length_seqZ in L.
      apply mapi_total. intros c t _. destruct (is_bomb t); [eauto|].
      destruct (countAdjacentBombs_total (0 + c) positions) as [k ->];
        [lia|lia|]. simpl. eauto.
    + intros c t E. rewrite item_fresh_positions in E.
      destruct (decide _); [|done]. injection E as <-. by left.
    + apply count_fresh_positions.
    + lia.
Qed.

End Generator.

(** *** Generated boards *)

(** C2. Every board that the generator returns for [width >= 1],
    [height >= 1] and [1 <= numBoms <= width * height - 1] has
    [width * height] tiles, [numBoms] of which are mines; every other tile
    is [Number] with the direct recount of the mines adjacent to it when
    that recount is positive, and [Empty] otherwise. *)
Theorem generateInitialGrid_counts width height numBoms draws tiles :
  1 <= width -> 1 <= height -> 1 <= numBoms <= width * height - 1 ->
  generateInitialGrid width height numBoms draws = Ok tiles ->
  Z.of_nat (length tiles) = width * height /\
  count is_bomb tiles = numBoms /\
  forall c t, item tiles c = Some t -> is_bomb t = false ->
    t = if 0 <? recount width height tiles c
        then NumberTile c (recount width height tiles c)
        else EmptyTile c.
Proof.
  intros Hw Hh Hn H. unfold generateInitialGrid in H.
  destruct (decide (width * height < 0 \/ 2 ^ 32 <= width * height)); [done|].
  apply bind_Ok in H as (positions & Hplace & Hmap).
  apply placeBombs_Ok in Hplace as (L & Hinv & Hcount).
  2:{ intros c t E. rewrite item_fresh_positions in E.
      destruct (decide _); [|done]. injection E as <-. by left. }
  2:{ apply count_fresh_positions. }
  2:{ lia. }
  rewrite length_map, length_seqZ in L.
  apply mapi_Ok in Hmap as [L' Hitem].
  assert (Hlen : Z.of_nat (length tiles) = width * height) by lia.
  assert (Hkind : forall c t0 t, item positions c = Some t0 ->
            item tiles c = Some t ->
            (is_bomb t0 = true /\ t = t0) \/
            (is_bomb t0 = false /\ is_bomb t = false /\
             exists k, countAdjacentBombs width height c positions = Ok k /\
               t = if 0 <? k then NumberTile c k else EmptyTile c)).
  { intros c t0 t E0 E. destruct (Hitem c t0 E0) as (y & Hy & Ey).
    rewrite E in Ey. injection Ey as <-. rewrite Z.add_0_l in Hy.
    destruct (is_bomb t0); [left; split; [done|congruence]|right].
    apply bind_Ok in Hy as (k & Hk & Hy). injection Hy as <-.
    split; [done|]. split; [by destruct (0 <? k)|]. eauto. }
  assert (Hsame : forall c t0 t, item positions c = Some t0 ->
            item tiles c = Some t -> is_bomb t = is_bomb t0).
  { intros c t0 t E0 E.
    destruct (Hkind c t0 t E0 E) as [[_ ->]|(-> & -> & _)]; done. }
  assert (Hbomb : forall d, bombAt tiles d = bombAt positions d).
  { intros d. unfold bombAt.
    destruct (item tiles d) as [t|] eqn:E, (item positions d) as [t0|] eqn:E0.
    - by apply (Hsame d).
    - apply item_Some in E. apply item_None in E0. lia.
    - apply item_Some in E0. apply item_None in E. lia.
    - done. }
  split; [done|]. split.
  - rewrite <- Hcount. apply count_pointwise; [done|].
    intros c t t0 E E0. by apply (Hsame c).
  - intros c t E Hnb.
    destruct (item_is_Some positions c) as [t0 E0].
    { apply item_Some in E. lia. }
    destruct (Hkind c t0 t E0 E) as [[Hb ->]|(_ & _ & k & Hk & ->)];
      [congruence|].
    apply countAdjacentBombs_Ok in Hk.
    rewrite (count_ext _ (bombAt tiles)) in Hk by (intros d _; by rewrite Hbomb).
    rewrite (count_neighbours_recount width height) in Hk; [|lia|done|].
    + by subst k.
    + unfold safeAt. rewrite E. by rewrite Hnb.
Qed.

Lemma generateInitialGrid_counts_witness :
  generateInitialGrid 3 3 2 [4; 4; 0] =
    Ok [BombTile 0; NumberTile 1 2; NumberTile 2 1;
        NumberTile 3 2; BombTile 4; NumberTile 5 1;
        NumberTile 6 1; NumberTile 7 1; NumberTile 8 1] /\
  Z.of_nat (length [BombTile 0; NumberTile 1 2; NumberTile 2 1;
        NumberTile 3 2; BombTile 4; NumberTile 5 1;
        NumberTile 6 1; NumberTile 7 1; NumberTile 8 1]) = 3 * 3 /\
  count is_bomb [BombTile 0; NumberTile 1 2; NumberTile 2 1;
        NumberTile 3 2; BombTile 4; NumberTile 5 1;
        NumberTile 6 1; NumberTile 7 1; NumberTile 8 1] = 2 /\
  forall c t,
    item [BombTile 0; NumberTile 1 2; NumberTile 2 1;
          NumberTile 3 2; BombTile 4; NumberTile 5 1;
          NumberTile 6 1; NumberTile 7 1; NumberTile 8 1] c = Some t ->
    is_bomb t = false ->
    t = if 0 <? recount 3 3 [BombTile 0; NumberTile 1 2; NumberTile 2 1;
                             NumberTile 3 2; BombTile 4; NumberTile 5 1;
                             NumberTile 6 1; NumberTile 7 1; NumberTile 8 1] c
        then NumberTile c
               (recount 3 3 [BombTile 0; NumberTile 1 2; NumberTile 2 1;
                             NumberTile 3 2; BombTile 4; NumberTile 5 1;
                             NumberTile 6 1; NumberTile 7 1; NumberTile 8 1] c)
        else EmptyTile c.
Proof.
  split; [reflexivity|].
  apply (generateInitialGrid_counts 3 3 2 [4; 4; 0]).
  - lia.
  - lia.
  - lia.
  - reflexivity.
Defined.

(** ** Scenarios *)

(** The boards of the scenarios are boards that the generator returns. *)
Example board5x1_generated : generateInitialGrid 5 1 1 [4] = Ok board5x1.
Proof. reflexivity. Qed.

Example board2x1_generated : generateInitialGrid 2 1 1 [1] = Ok board2x1.
Proof. reflexivity. Qed.

Example board3x3_generated : generateInitialGrid 3 3 1 [8] = Ok board3x3.
Proof. reflexivity. Qed.

(** A draw that hits a mine is drawn again. *)
Example generate_redraws :
  generateInitialGrid 3 3 2 [4; 4; 0] =
    Ok [BombTile 0; NumberTile 1 2; NumberTile 2 1;
        NumberTile 3 2; BombTile 4; NumberTile 5 1;
        NumberTile 6 1; NumberTile 7 1; NumberTile 8 1].
Proof. reflexivity. Qed.

(** On the 5x1 board, revealing cell 0 opens cells 0, 1 and 2, then cell 3,
    a [Number], and does not enter cell 4; no safe cell is left, so the game
    is won and the mine is flagged. *)
Example cascade_5x1 :
  cascadeLog 5 1 board5x1 6 0 (replicate 5 closed, [])
    = Ok ([opened; opened; opened; opened; closed], [3; 2; 1; 0]) /\
  uncoverTile 5 1 board5x1 (replicate 5 closed) 0
    = Ok ([opened; opened; opened; opened;
           {| isOpen := false; isFlagged := true |}], Won).
Proof. split; reflexivity. Qed.

(** A flagged cell is revealed, and lets the cascade through, like any
    other. *)
Example cascade_through_flags :
  uncoverTile 5 1 board5x1
    (replicate 5 {| isOpen := false; isFlagged := true |}) 0
  = Ok ([{| isOpen := true; isFlagged := true |};
         {| isOpen := true; isFlagged := true |};
         {| isOpen := true; isFlagged := true |};
         {| isOpen := true; isFlagged := true |};
         {| isOpen := false; isFlagged := true |}], Won).
Proof. reflexivity. Qed.

(** Revealing a [Number] cell opens that cell alone. *)
Example number_no_cascade :
  uncoverTile 3 3 board3x3 (replicate 9 closed) 4
  = Ok ([closed; closed; closed; closed; opened; closed; closed; closed; closed],
        InProgress).
Proof. reflexivity. Qed.

(** ** Further properties of the resolver *)

Lemma uncoverTile_length width height tiles st idx st' o :
  length st = length tiles ->
  uncoverTile width height tiles st idx = Ok (st', o) ->
  length st' = length st.
Proof.
  intros L H. apply uncoverTile_Ok in H; [|done].
  destruct H as [(_ & -> & _)|[(_ & _ & _ & [L' _])
                  |(_ & _ & st1 & Hrun & Hend)]]; [done|done|].
  apply cascade_opensSafe, opensSafe_length in Hrun.
  destruct Hend as [(_ & _ & [L' _])|(_ & _ & ->)]; congruence.
Qed.

Lemma uncoverTile_keeps_open width height tiles st idx st' o c :
  length st = length tiles ->
  uncoverTile width height tiles st idx = Ok (st', o) ->
  openAt st c = true -> openAt st' c = true.
Proof.
  intros L H Ho. apply uncoverTile_Ok in H; [|done].
  destruct H as [(_ & -> & _)|[(_ & _ & _ & Hon)
                  |(_ & _ & st1 & Hrun & Hend)]]; [done| |].
  - rewrite (onBombs_open _ _ _ c Hon).
    destruct (bombAt tiles c); [|done].
    destruct (decide _) as [|Hout]; [done|]. exfalso. apply Hout.
    unfold openAt in Ho. destruct (item st c) eqn:Es; [|done].
    by apply item_Some in Es.
  - pose proof (cascade_opensSafe _ _ _ _ _ _ _ Hrun) as Hgrow.
    pose proof (opensSafe_open _ _ _ c Hgrow Ho) as Ho1.
    destruct Hend as [(_ & _ & Hon)|(_ & _ & ->)]; [|done].
    by rewrite (onBombs_flagged_open _ _ _ c Hon).
Qed.

Lemma bombAt_range tiles c :
  bombAt tiles c = true -> 0 <= c < Z.of_nat (length tiles).
Proof.
  unfold bombAt. destruct (item tiles c) eqn:E; [|done].
  intros _. by apply item_Some in E.
Qed.

Lemma safeAt_range tiles c :
  safeAt tiles c = true -> 0 <= c < Z.of_nat (length tiles).
Proof.
  unfold safeAt. destruct (item tiles c) eqn:E; [|done].
  intros _. by apply item_Some in E.
Qed.



(** X2. The outcome of a reveal: [Lost] exactly when the target is an unrevealed
    mine, and [Won] exactly when it is an unrevealed cell without a mine and
    no such cell is left unrevealed afterwards. *)
Theorem uncoverTile_outcome width height tiles st idx st' o :
  wellFormed width height tiles st ->
  uncoverTile width height tiles st idx = Ok (st', o) ->
  (o = Lost <-> openAt st idx = false /\ bombAt tiles idx = true) /\
  (o = Won <->
     openAt st idx = false /\ safeAt tiles idx = true /\
     unrevealedSafe tiles st' = 0).
Proof.
  intros [_ L] H. apply uncoverTile_Ok in H; [|done].
  destruct H as [(Ho & -> & ->)|[(Hc & Hb & -> & Hon)
                  |(Hc & Hs & st1 & Hrun & Hend)]].
  - split; split; try done; intros (? & _); congruence.
  - split; split; try done.
    intros (_ & Hs & _). apply bombAt_safeAt in Hb. congruence.
  - assert (Hnb : bombAt tiles idx = false) by by apply safeAt_not_bomb.
    destruct Hend as [(Hz & -> & Hon)|(Hz & -> & ->)].
    + split; split; try done.
      * intros [_ ?]. congruence.
      * intros _. split; [done|]. split; [done|].
        rewrite <- Hz. apply unrevealedSafe_same_open.
        intros c. by apply (onBombs_flagged_open tiles).
    + split; split; try done.
      * intros [_ ?]. congruence.
      * intros (_ & _ & ?). congruence.
Qed.

Lemma uncoverTile_outcome_witness :
  (Won = Lost <->
     openAt (replicate 5 closed) 0 = false /\ bombAt board5x1 0 = true) /\
  (Won = Won <->
     openAt (replicate 5 closed) 0 = false /\ safeAt board5x1 0 = true /\
     unrevealedSafe board5x1
       [opened; opened; opened; opened; {| isOpen := false; isFlagged := true |}]
     = 0).
Proof.
  apply (uncoverTile_outcome 5 1 board5x1 (replicate 5 closed) 0).
  - unfold wellFormed, gridLayout. simpl. lia.
  - reflexivity.
Defined.

(** X3. Revealing an unrevealed [Number] cell reveals that cell and no other:
    the cascade does not go on from it. *)
Theorem uncoverTile_number_reveals_one width height tiles st idx :
  wellFormed width height tiles st ->
  openAt st idx = false ->
  numberAt tiles idx = true ->
  exists st' o,
    uncoverTile width height tiles st idx = Ok (st', o) /\
    forall c, openAt st' c = true <-> c = idx \/ openAt st c = true.
Proof.
  intros [_ L] Hc Hnum.
  assert (Hs : safeAt tiles idx = true) by by apply numberAt_safe.
  assert (He : emptyAt tiles idx = false).
  { unfold numberAt, emptyAt in *. by destruct (item tiles idx) as [[]|]. }
  destruct (uncoverTile_safe width height tiles st idx L Hc Hs)
    as (st1 & Hrun & Hend).
  assert (Hopen : forall c, openAt st1 c = true <-> c = idx \/ openAt st c = true).
  { apply cascade_cases in Hrun
      as [[_ [?|?]]|(st2 & _ & _ & Hup & [[_ ->]|[? _]])]; try congruence.
    intros c. split.
    - by apply (update_open_other st).
    - intros [->|Ho]; [by apply (update_open st)|].
      eapply opensSafe_open; [|done]. by apply (update_opensSafe tiles st idx). }
  destruct Hend as [(_ & st2 & E & Hon)|(_ & E)].
  - exists st2, Won. split; [done|]. intros c.
    rewrite (onBombs_flagged_open _ _ _ c Hon). apply Hopen.
  - exists st1, InProgress. auto.
Qed.

Lemma uncoverTile_number_reveals_one_witness :
  exists st' o,
    uncoverTile 3 3 board3x3 (replicate 9 closed) 4 = Ok (st', o) /\
    forall c, openAt st' c = true <->
      c = 4 \/ openAt (replicate 9 closed) c = true.
Proof.
  apply (uncoverTile_number_reveals_one 3 3 board3x3 (replicate 9 closed) 4).
  - unfold wellFormed, gridLayout. simpl. lia.
  - reflexivity.
  - reflexivity.
Defined.

(** X4. Toggling the flag of a cell twice gives back the state: the second
    toggle undoes the first. *)
Theorem toggleFlag_twice st idx st' :
  toggleFlag st idx = Ok st' -> toggleFlag st' idx = Ok st.
Proof.
  intros H. pose proof (toggleFlag_Ok _ _ _ H) as (s & Es & L & Hitem).
  assert (Es' : item st' idx =
            Some {| isOpen := isOpen s; isFlagged := negb (isFlagged s) |}).
  { rewrite Hitem. by destruct (decide _). }
  destruct (update_total st' idx
              (withFlagged (negb (negb (isFlagged s)))) _ Es') as [st'' Hup].
  assert (E : toggleFlag st' idx = Ok st'').
  { unfold toggleFlag. rewrite Es'. done. }
  rewrite E. f_equal.
  pose proof (toggleFlag_Ok _ _ _ E) as (s' & Es'' & L' & Hitem').
  rewrite Es' in Es''. injection Es'' as <-.
  apply item_ext. intros c. rewrite Hitem'. simpl.
  destruct (decide (c = idx)) as [->|Hne].
  - rewrite Es, negb_involutive. by destruct s.
  - rewrite Hitem. by destruct (decide _).
Qed.

Lemma toggleFlag_twice_witness :
  toggleFlag [closed; {| isOpen := false; isFlagged := true |}; opened] 1
  = Ok [closed; closed; opened].
Proof.
  apply (toggleFlag_twice [closed; closed; opened] 1). reflexivity.
Defined.

(** X6. In every state of a game, the cells without a mine that touch a
    revealed [Empty] cell are revealed. *)
Theorem revealed_empty_has_revealed_neighbours width height tiles st c d :
  gridLayout width height tiles ->
  reachable width height tiles st ->
  openAt st c = true ->
  emptyAt tiles c = true ->
  adjacent width height c d ->
  safeAt tiles d = true ->
  openAt st d = true.
Proof.
  intros Hlay Hreach Ho He Hadj Hs.
  apply (reachable_floodClosed _ _ _ Hlay _ Hreach c d); auto.
  apply (In_neighbours_adjacent _ _ _ Hlay); auto.
Qed.

Lemma revealed_empty_has_revealed_neighbours_witness :
  openAt [opened; opened; opened; opened;
          {| isOpen := false; isFlagged := true |}] 3 = true.
Proof.
  apply (revealed_empty_has_revealed_neighbours 5 1 board5x1 _ 2 3).
  - unfold gridLayout. simpl. lia.
  - apply (reachable_uncover 5 1 board5x1 (replicate 5 closed) 0 _ Won).
    + apply reachable_initial. reflexivity.
    + reflexivity.
  - reflexivity.
  - reflexivity.
  - apply adjacentb_true. reflexivity.
  - reflexivity.
Defined.

Lemma evolves_length width height tiles st st' :
  length st = length tiles ->
  evolves width height tiles st st' -> length st' = length st.
Proof.
  intros L. induction 1 as [|st1 idx st2 o _ IH H|st1 idx st2 _ IH H]; [done| |].
  - rewrite <- IH. apply (uncoverTile_length width height tiles st1 idx st2 o);
      [congruence|done].
  - apply toggleFlag_Ok in H as (_ & _ & L' & _). congruence.
Qed.

Lemma evolves_keeps_open width height tiles st st' c :
  length st = length tiles ->
  evolves width height tiles st st' ->
  openAt st c = true -> openAt st' c = true.
Proof.
  intros L Hev Ho.
  induction Hev as [|st1 idx st2 o Hev IH H|st1 idx st2 Hev IH H]; [done| |].
  - apply (uncoverTile_keeps_open width height tiles st1 idx st2 o c);
      [|done|done].
    rewrite (evolves_length _ _ _ _ _ L Hev). done.
  - by rewrite (toggleFlag_open st1 idx st2 c H).
Qed.

(** X7. A game reports each end once: after a reveal returned [Won], no later
    reveal returns [Won], whatever was done in between, and likewise for
    [Lost]. *)
Theorem terminal_outcome_once width height tiles st idx st1 o1 st2 j st3 o2 :
  wellFormed width height tiles st ->
  uncoverTile width height tiles st idx = Ok (st1, o1) ->
  o1 <> InProgress ->
  evolves width height tiles st1 st2 ->
  uncoverTile width height tiles st2 j = Ok (st3, o2) ->
  o2 <> o1.
Proof.
  intros [_ L] H1 Hterm Hev H2 ->.
  pose proof (uncoverTile_length _ _ _ _ _ _ _ L H1) as L1.
  assert (L1' : length st1 = length tiles) by congruence.
  pose proof (evolves_length _ _ _ _ _ L1' Hev) as L2.
  assert (L2' : length st2 = length tiles) by congruence.
  apply uncoverTile_Ok in H1; [|done]. apply uncoverTile_Ok in H2; [|done].
  destruct H1 as [(_ & _ & ->)|[(_ & _ & -> & Hon)
                   |(_ & _ & sa & _ & [(Hz & -> & Hon)|(_ & -> & _)])]];
    try done.
  - assert (Hopen : openAt st2 j = true).
    { destruct H2 as [(? & _)|[(_ & Hb & _)|(_ & _ & _ & _ & [(_ & ? & _)|(_ & ? & _)])]];
        try done.
      apply (evolves_keeps_open _ _ _ st1 st2 j L1' Hev).
      rewrite (onBombs_open _ _ _ j Hon), Hb.
      destruct (decide _) as [|Hout]; [done|]. exfalso. apply Hout.
      apply bombAt_range in Hb. lia. }
    destruct H2 as [(_ & _ & ?)|[(? & _)|(? & _)]]; congruence.
  - assert (Hopen : openAt st2 j = true).
    { destruct H2 as [(? & _)|[(_ & _ & ? & _)|(_ & Hs & _)]]; try done.
      apply (evolves_keeps_open _ _ _ st1 st2 j L1' Hev).
      rewrite (onBombs_flagged_open _ _ _ j Hon).
      by apply (proj1 (unrevealedSafe_zero tiles sa) Hz). }
    destruct H2 as [(_ & _ & ?)|[(? & _)|(? & _)]]; congruence.
Qed.

Lemma terminal_outcome_once_witness :
  uncoverTile 5 1 board5x1
    [opened; opened; opened; opened; {| isOpen := false; isFlagged := false |}] 4
  = Ok ([opened; opened; opened; opened; opened], Lost) /\
  Lost <> Won.
Proof.
  split; [reflexivity|].
  apply (terminal_outcome_once 5 1 board5x1 (replicate 5 closed) 0
           [opened; opened; opened; opened; {| isOpen := false; isFlagged := true |}]
           Won
           [opened; opened; opened; opened; {| isOpen := false; isFlagged := false |}]
           4 [opened; opened; opened; opened; opened] Lost).
  - unfold wellFormed, gridLayout. simpl. lia.
  - reflexivity.
  - discriminate.
  - apply (evolves_flag 5 1 board5x1 _
             [opened; opened; opened; opened; {| isOpen := false; isFlagged := true |}]
             4); [apply evolves_here|reflexivity].
  - reflexivity.
Defined.

(** *** Reveals commute *)

Lemma state_ext (a b : list TileState) :
  length a = length b ->
  (forall c, openAt a c = openAt b c) ->
  (forall c, flagAt a c = flagAt b c) ->
  a = b.
Proof.
  intros L Ho Hf. apply item_ext. intros c.
  specialize (Ho c). specialize (Hf c). unfold openAt, flagAt in *.
  destruct (item a c) as [[o1 f1]|] eqn:Ea, (item b c) as [[o2 f2]|] eqn:Eb.
  - simpl in *. congruence.
  - apply item_Some in Ea. apply item_None in Eb. lia.
  - apply item_Some in Eb. apply item_None in Ea. lia.
  - done.
Qed.

Lemma bool_eq_iff (b1 b2 : bool) (P : Prop) :
  (b1 = true <-> P) -> (b2 = true <-> P) -> b1 = b2.
Proof. destruct b1, b2; intuition congruence. Qed.

(** A reveal of an unrevealed cell without a mine, in a state closed under
    the flood: what is revealed and what is flagged afterwards. *)
Lemma uncoverTile_safe_spec width height tiles st idx :
  length st = length tiles ->
  floodClosed width height tiles (fun _ => False) st ->
  openAt st idx = false -> safeAt tiles idx = true ->
  exists st' o,
    uncoverTile width height tiles st idx = Ok (st', o) /\
    length st' = length st /\
    floodClosed width height tiles (fun _ => False) st' /\
    (forall c, openAt st' c = true <->
       openAt st c = true \/ flood width height tiles idx c) /\
    (forall c, flagAt st' c =
       if bombAt tiles c && (unrevealedSafe tiles st' =? 0)
       then true else flagAt st c).
Proof.
  intros L Hcl Hc Hs.
  destruct (uncoverTile_safe width height tiles st idx L Hc Hs)
    as (st1 & Hrun & Hend).
  pose proof (cascade_opensSafe _ _ _ _ _ _ _ Hrun) as Hgrow.
  pose proof (opensSafe_length _ _ _ Hgrow) as L1.
  pose proof (cascade_floodClosed _ _ _ _ _ _ _ _ Hrun Hcl) as Hcl1.
  assert (Hopen : forall c, openAt st1 c = true <->
            openAt st c = true \/ flood width height tiles idx c).
  { intros c. split.
    - by apply (cascade_sound _ _ _ _ _ _ _ _ Hrun).
    - intros [Ho|Hf]; [by eapply opensSafe_open|].
      apply (floodClosed_complete width height tiles idx); [done| |done].
      by eapply cascade_opens_start. }
  destruct Hend as [(Hz & st2 & E & Hon)|(Hz & E)].
  - exists st2, Won. split; [done|].
    assert (Hsame : forall c, openAt st2 c = openAt st1 c)
      by (intros c; by apply (onBombs_flagged_open tiles)).
    split; [destruct Hon; congruence|]. split; [|split].
    + apply (floodClosed_same_open width height tiles _ st1); [|done].
      intros c _. apply Hsame.
    + intros c. rewrite Hsame. apply Hopen.
    + intros c. rewrite (unrevealedSafe_same_open tiles st1 st2 Hsame), Hz.
      rewrite andb_true_r, (onBombs_flagged_flag _ _ _ c Hon).
      destruct (bombAt tiles c) eqn:Hb; [|by apply (opensSafe_flag tiles)].
      destruct (decide _) as [|Hout]; [done|]. exfalso. apply Hout.
      apply bombAt_range in Hb. lia.
  - exists st1, InProgress. split; [done|]. split; [done|].
    split; [done|]. split; [done|]. intros c.
    apply Z.eqb_neq in Hz. rewrite Hz, andb_false_r.
    by apply (opensSafe_flag tiles).
Qed.

Lemma two_reveals width height tiles st a b :
  length st = length tiles ->
  floodClosed width height tiles (fun _ => False) st ->
  openAt st a = false -> safeAt tiles a = true ->
  safeAt tiles b = true ->
  exists sa oa sab ob,
    uncoverTile width height tiles st a = Ok (sa, oa) /\
    uncoverTile width height tiles sa b = Ok (sab, ob) /\
    length sab = length st /\
    (forall c, openAt sab c = true <->
       openAt st c = true \/ flood width height tiles a c \/
       flood width height tiles b c) /\
    (forall c, flagAt sab c =
       if bombAt tiles c && (unrevealedSafe tiles sab =? 0)
       then true else flagAt st c).
Proof.
  intros L Hcl Hca Hsa Hsb.
  destruct (uncoverTile_safe_spec width height tiles st a L Hcl Hca Hsa)
    as (sa & oa & Ea & La & Hcla & Hoa & Hfa).
  exists sa, oa. destruct (openAt sa b) eqn:Hob.
  - exists sa, InProgress. split; [done|].
    split; [by apply uncoverTile_open|]. split; [done|]. split; [|done].
    intros c. rewrite Hoa. split; [tauto|].
    intros [?|[?|Hf]]; [tauto|tauto|].
    apply Hoa. by apply (floodClosed_complete width height tiles b sa c).
  - destruct (uncoverTile_safe_spec width height tiles sa b) as
      (sab & ob & Eb & Lb & _ & Hob' & Hfb); [congruence|done|done|done|].
    exists sab, ob. split; [done|]. split; [done|]. split; [congruence|].
    split.
    + intros c. rewrite Hob', Hoa. tauto.
    + intros c. rewrite Hfb, Hfa.
      destruct (bombAt tiles c); [|done]. simpl.
      destruct (Z.eqb_spec (unrevealedSafe tiles sab) 0) as [|Hne]; [done|].
      destruct (Z.eqb_spec (unrevealedSafe tiles sa) 0) as [Hz|]; [|done].
      exfalso. apply Hne. apply unrevealedSafe_zero. intros c' Hs'.
      apply Hob'. left. by apply (proj1 (unrevealedSafe_zero tiles sa) Hz).
Qed.

(** X8. In every state of a game, revealing two unrevealed cells without a mine
    in one order or the other ends in the same state. *)
Theorem reveals_commute width height tiles st a b :
  gridLayout width height tiles ->
  reachable width height tiles st ->
  openAt st a = false -> safeAt tiles a = true ->
  openAt st b = false -> safeAt tiles b = true ->
  exists sa oa sb ob s o1 o2,
    uncoverTile width height tiles st a = Ok (sa, oa) /\
    uncoverTile width height tiles sa b = Ok (s, o1) /\
    uncoverTile width height tiles st b = Ok (sb, ob) /\
    uncoverTile width height tiles sb a = Ok (s, o2).
Proof.
  intros Hlay Hreach Hca Hsa Hcb Hsb.
  pose proof (reachable_length _ _ _ Hlay _ Hreach) as L.
  pose proof (reachable_floodClosed _ _ _ Hlay _ Hreach) as Hcl.
  destruct (two_reveals width height tiles st a b L Hcl Hca Hsa Hsb)
    as (sa & oa & sab & o1 & Ea & Eab & Lab & Hoab & Hfab).
  destruct (two_reveals width height tiles st b a L Hcl Hcb Hsb Hsa)
    as (sb & ob & sba & o2 & Eb & Eba & Lba & Hoba & Hfba).
  assert (Hopen : forall c, openAt sba c = openAt sab c).
  { intros c. eapply bool_eq_iff; [apply Hoba|]. rewrite Hoab. tauto. }
  assert (E : sba = sab).
  { apply state_ext; [congruence|done|]. intros c.
    rewrite Hfba, Hfab.
    by rewrite (unrevealedSafe_same_open tiles sab sba Hopen). }
  subst sba. exists sa, oa, sb, ob, sab, o1, o2. auto.
Qed.

Lemma reveals_commute_witness :
  exists sa oa sb ob s o1 o2,
    uncoverTile 3 3 board3x3 (replicate 9 closed) 4 = Ok (sa, oa) /\
    uncoverTile 3 3 board3x3 sa 0 = Ok (s, o1) /\
    uncoverTile 3 3 board3x3 (replicate 9 closed) 0 = Ok (sb, ob) /\
    uncoverTile 3 3 board3x3 sb 4 = Ok (s, o2).
Proof.
  apply (reveals_commute 3 3 board3x3 (replicate 9 closed) 4 0).
  - unfold gridLayout. simpl. lia.
  - apply reachable_initial. reflexivity.
  - reflexivity.
  - reflexivity.
  - reflexivity.
  - reflexivity.
Defined.

(** ** Further properties of the generator *)

Lemma count_split {A : Type} (p q : A -> bool) (l : list A) :
  count p l = count (fun x => p x && q x) l + count (fun x => p x && negb (q x)) l.
Proof.
  induction l as [|x l IH]; simpl; [done|].
  rewrite IH. destruct (p x), (q x); simpl; lia.
Qed.

Lemma count_lt_length {A : Type} (p : A -> bool) (l : list A) (x : A) :
  In x l -> p x = false -> count p l < Z.of_nat (length l).
Proof.
  induction l as [|y l IH]; simpl; [done|].
  pose proof (count_bounds p l) as Hb.
  intros [->|Hx] Hp.
  - rewrite Hp. lia.
  - specialize (IH Hx Hp). destruct (p y); lia.
Qed.

Lemma flat_map_length_le {A B : Type} (g : A -> list B) (l : list A) (k : nat) :
  (forall x, (length (g x) <= k)%nat) ->
  (length (flat_map g l) <= k * length l)%nat.
Proof.
  intros H. induction l as [|x l IH]; simpl; [lia|].
  rewrite length_app. specialize (H x). lia.
Qed.

(** The loops reach at most nine cells. *)
Lemma neighbours_length width height idx :
  (length (neighbours width height idx) <= 9)%nat.
Proof.
  unfold neighbours.
  etransitivity; [apply (flat_map_length_le _ _ 3)|done].
  intros i. etransitivity; [apply (flat_map_length_le _ _ 1)|done].
  intros j. destruct (inGrid _ _ _ _); simpl; lia.
Qed.

(** What the loops count around a cell of the grid: the mines of the direct
    recount, and the cell itself when it holds a mine. *)
Lemma count_neighbours_centre width height tiles c :
  0 < width -> Z.of_nat (length tiles) = width * height ->
  0 <= c < width * height ->
  count (bombAt tiles) (neighbours width height c) =
    recount width height tiles c + (if bombAt tiles c then 1 else 0).
Proof.
  intros Hw L Hc.
  rewrite (count_split (bombAt tiles) (fun d => d =? c)).
  rewrite Z.add_comm. f_equal.
  - unfold recount. apply count_NoDup; [by apply NoDup_neighbours|apply NoDup_seqZ|].
    intros d. rewrite (neighbours_adjacent _ _ Hw c d Hc).
    rewrite <- list_elem_of_In, elem_of_seqZ, !andb_true_iff, negb_true_iff.
    rewrite (adjacentb_true width height c d), Z.eqb_neq. split.
    + intros [[->|Hadj] [Hb Hne]]; [done|].
      split; [|done]. destruct Hadj as (_ & ? & _). lia.
    + intros [_ [Hadj Hb]]. split; [auto|]. split; [done|].
      destruct Hadj as (_ & _ & ? & _). congruence.
  - transitivity (count (bombAt tiles) [c]); [|simpl; lia].
    apply count_NoDup; [by apply NoDup_neighbours|apply NoDup_singleton|].
    intros d. rewrite (neighbours_adjacent _ _ Hw c d Hc).
    rewrite andb_true_iff, Z.eqb_eq. simpl. split.
    + intros [_ [Hb ->]]. auto.
    + intros [[<-|[]] Hb]. auto.
Qed.

(** X9. For every cell of a grid-sized array, [countAdjacentBombs] returns, so it
    reads no index outside the array, and what it returns is the number of
    mines on the cells adjacent to the cell, clipped at the edges of the grid
    and without wrap-around, plus one when the cell holds a mine itself. *)
Theorem countAdjacentBombs_value width height positions c :
  0 < width ->
  Z.of_nat (length positions) = width * height ->
  0 <= c < width * height ->
  countAdjacentBombs width height c positions =
    Ok (recount width height positions c +
        (if bombAt positions c then 1 else 0)).
Proof.
  intros Hw L Hc.
  destruct (countAdjacentBombs_total width height c positions Hw L) as [k Hk].
  rewrite Hk. f_equal. apply countAdjacentBombs_Ok in Hk. subst k.
  by apply count_neighbours_centre.
Qed.

Lemma countAdjacentBombs_value_witness :
  countAdjacentBombs 3 3 8 board3x3 = Ok (recount 3 3 board3x3 8 + 1).
Proof.
  apply (countAdjacentBombs_value 3 3 board3x3 8).
  - lia.
  - reflexivity.
  - lia.
Defined.

(** What a returned board is made of: the tiles with the mines placed, of
    which the mines are kept and the others are given their count. *)
Lemma generateInitialGrid_inv width height numBoms draws tiles :
  0 <= numBoms ->
  generateInitialGrid width height numBoms draws = Ok tiles ->
  exists positions,
    placeBombs numBoms draws (map EmptyTile (seqZ 0 (width * height))) 0
      = Ok positions /\
    Z.of_nat (length positions) = width * height /\
    length tiles = length positions /\
    bombsOrEmpty positions /\
    count is_bomb positions = numBoms /\
    forall c t0 t, item positions c = Some t0 -> item tiles c = Some t ->
      (is_bomb t0 = true /\ t = t0) \/
      (is_bomb t0 = false /\ is_bomb t = false /\
       exists k, countAdjacentBombs width height c positions = Ok k /\
         t = if 0 <? k then NumberTile c k else EmptyTile c).
Proof.
  intros Hn H. unfold generateInitialGrid in H.
  destruct (decide (width * height < 0 \/ 2 ^ 32 <= width * height)); [done|].
  apply bind_Ok in H as (positions & Hplace & Hmap).
  exists positions. split; [done|].
  apply placeBombs_Ok in Hplace as (L & Hinv & Hcount).
  2:{ intros c t E. rewrite item_fresh_positions in E.
      destruct (decide _); [|done]. injection E as <-. by left. }
  2:{ apply count_fresh_positions. }
  2:{ lia. }
  rewrite length_map, length_seqZ in L.
  apply mapi_Ok in Hmap as [L' Hitem].
  split; [lia|]. split; [done|]. split; [done|]. split; [done|].
  intros c t0 t E0 E. destruct (Hitem c t0 E0) as (y & Hy & Ey).
  rewrite E in Ey. injection Ey as <-. rewrite Z.add_0_l in Hy.
  destruct (is_bomb t0); [left; split; [done|congruence]|right].
  apply bind_Ok in Hy as (k & Hk & Hy). injection Hy as <-.
  split; [done|]. split; [by destruct (0 <? k)|]. eauto.
Qed.

(** X10. On every board that the generator returns, each tile holds its own
    position as [index], and each [Number] tile holds a count from 1 to 8. *)
Theorem generated_tiles_shape width height numBoms draws tiles c t :
  1 <= width -> 0 <= numBoms ->
  generateInitialGrid width height numBoms draws = Ok tiles ->
  item tiles c = Some t ->
  index t = c /\
  forall i k, t = NumberTile i k -> 1 <= k <= 8.
Proof.
  intros Hw Hn H E.
  destruct (generateInitialGrid_inv _ _ _ _ _ Hn H)
    as (positions & _ & L & L' & Hinv & _ & Hkind).
  destruct (item_is_Some positions c) as [t0 E0].
  { apply item_Some in E. lia. }
  destruct (Hkind c t0 t E0 E) as [[Hb ->]|(Hb & _ & k & Hk & ->)].
  - destruct (Hinv c t0 E0) as [->| ->]; [done|]. split; [done|]. intros; done.
  - assert (Hc : 0 <= c < width * height) by (apply item_Some in E0; lia).
    apply countAdjacentBombs_Ok in Hk.
    assert (Hlt : k < 9).
    { pose proof (neighbours_length width height c) as Hlen. subst k.
      assert (In c (neighbours width height c))
        by (apply neighbours_adjacent; [lia|done|auto]).
      pose proof (count_lt_length (bombAt positions) _ c H0) as Hlt.
      unfold bombAt in Hlt at 1. rewrite E0, Hb in Hlt. specialize (Hlt eq_refl).
      lia. }
    destruct (Z.ltb_spec 0 k); simpl.
    + split; [done|]. intros i k' [= _ <-]. lia.
    + split; [done|]. intros; done.
Qed.

Lemma generated_tiles_shape_witness :
  index (NumberTile 1 2) = 1 /\
  forall i k, NumberTile 1 2 = NumberTile i k -> 1 <= k <= 8.
Proof.
  apply (generated_tiles_shape 3 3 2 [4; 4; 0]
    [BombTile 0; NumberTile 1 2; NumberTile 2 1;
     NumberTile 3 2; BombTile 4; NumberTile 5 1;
     NumberTile 6 1; NumberTile 7 1; NumberTile 8 1] 1 (NumberTile 1 2)).
  - lia.
  - lia.
  - reflexivity.
  - reflexivity.
Defined.

Lemma existsb_eqb_In (d : Z) (seen : list Z) :
  existsb (Z.eqb d) seen = true <-> In d seen.
Proof.
  rewrite existsb_exists. split.
  - intros (x & Hx & E). apply Z.eqb_eq in E. by subst.
  - intros H. exists d. split; [done|apply Z.eqb_refl].
Qed.

Lemma existsb_eqb_not_In (d : Z) (seen : list Z) :
  existsb (Z.eqb d) seen = false <-> ~ In d seen.
Proof. rewrite <- existsb_eqb_In. by destruct (existsb _ _). Qed.

Lemma bombAt_insert_bomb positions d c :
  0 <= d < Z.of_nat (length positions) ->
  bombAt (<[Z.to_nat d := BombTile d]> positions) c = true <->
  c = d \/ bombAt positions c = true.
Proof.
  intros Hd. unfold bombAt. rewrite item_insert by done.
  destruct (decide (c = d)) as [->|Hne]; simpl; [tauto|].
  split; [auto|]. by intros [?|?].
Qed.

Lemma bombsOrEmpty_insert_bomb positions d :
  0 <= d < Z.of_nat (length positions) ->
  bombsOrEmpty positions ->
  bombsOrEmpty (<[Z.to_nat d := BombTile d]> positions).
Proof.
  intros Hd Hinv c t E. rewrite item_insert in E by done.
  destruct (decide (c = d)) as [->|]; [|by apply Hinv].
  injection E as <-. by right.
Qed.

Section Draws.

Variable numBoms : Z.

(** The loop ends once the draws, all in the array, have brought enough
    cells that hold no mine yet. *)
Lemma placeBombs_enough draws positions bombsPlaced seen :
  bombsOrEmpty positions ->
  (forall c, bombAt positions c = true <-> In c seen) ->
  Forall (fun d => 0 <= d < Z.of_nat (length positions)) draws ->
  numBoms - bombsPlaced <= freshDraws seen draws ->
  exists positions', placeBombs numBoms draws positions bombsPlaced = Ok positions'.
Proof.
  revert positions bombsPlaced seen.
  induction draws as [|d draws IH]; intros positions k seen Hinv Hseen Hrange Hfresh;
    simpl in *.
  { destruct (decide (k < numBoms)); [lia|eauto]. }
  destruct (decide (k < numBoms)); [|eauto].
  apply Forall_cons in Hrange as [Hd Hrange].
  destruct (item_is_Some positions d Hd) as [t Et]. rewrite Et. simpl.
  destruct (Hinv d t Et) as [-> | ->]; simpl.
  - assert (Hnew : ~ In d seen).
    { rewrite <- Hseen. unfold bombAt. by rewrite Et. }
    apply existsb_eqb_not_In in Hnew. rewrite Hnew in Hfresh.
    rewrite assign_in_range by done. simpl.
    apply (IH _ _ (d :: seen)).
    + by apply bombsOrEmpty_insert_bomb.
    + intros c. rewrite bombAt_insert_bomb by done. rewrite Hseen.
      simpl. split; intros [?|?]; auto.
    + by rewrite length_insert.
    + lia.
  - assert (Hold : In d seen).
    { rewrite <- Hseen. unfold bombAt. by rewrite Et. }
    apply existsb_eqb_In in Hold. rewrite Hold in Hfresh.
    by apply (IH _ _ seen).
Qed.

(** The mines that the loop places are the first distinct draws that hit
    no mine, as many as are missing. *)
Lemma placeBombs_firstDistinct draws positions bombsPlaced seen positions' :
  placeBombs numBoms draws positions bombsPlaced = Ok positions' ->
  bombsOrEmpty positions ->
  (forall c, bombAt positions c = true <-> In c seen) ->
  forall c, bombAt positions' c = true <->
    In c seen \/
    In c (firstDistinct (Z.to_nat (numBoms - bombsPlaced)) seen draws).
Proof.
  revert positions bombsPlaced seen.
  induction draws as [|d draws IH]; intros positions k seen H Hinv Hseen c;
    simpl in H.
  { destruct (decide (k < numBoms)); [done|]. injection H as <-.
    rewrite Hseen. simpl. tauto. }
  destruct (decide (k < numBoms)) as [Hlt|Hge].
  2:{ injection H as <-. replace (Z.to_nat (numBoms - k)) with O by lia.
      rewrite Hseen. simpl. tauto. }
  replace (Z.to_nat (numBoms - k)) with (S (Z.to_nat (numBoms - (k + 1)))) by lia.
  apply bind_Ok in H as (t & Et & H). apply prop_Ok in Et.
  cbn [firstDistinct].
  destruct (Hinv d t Et) as [-> | ->]; simpl in H.
  - assert (Hnew : ~ In d seen).
    { rewrite <- Hseen. unfold bombAt. by rewrite Et. }
    apply existsb_eqb_not_In in Hnew. rewrite Hnew.
    apply bind_Ok in H as (positions1 & Hassign & H).
    apply assign_Ok in Hassign as [Hd ->].
    rewrite (IH _ _ (d :: seen) H).
    + simpl. tauto.
    + by apply bombsOrEmpty_insert_bomb.
    + intros c'. rewrite bombAt_insert_bomb by done. rewrite Hseen.
      simpl. split; intros [?|?]; auto.
  - assert (Hold : In d seen).
    { rewrite <- Hseen. unfold bombAt. by rewrite Et. }
    apply existsb_eqb_In in Hold. rewrite Hold.
    replace (S (Z.to_nat (numBoms - (k + 1)))) with (Z.to_nat (numBoms - k)) by lia.
    by apply (IH _ _ seen H).
Qed.

End Draws.

Lemma bombsOrEmpty_fresh n : bombsOrEmpty (map EmptyTile (seqZ 0 n)).
Proof.
  intros c t E. rewrite item_fresh_positions in E.
  destruct (decide _); [|done]. injection E as <-. by left.
Qed.

Lemma bombAt_fresh n c : bombAt (map EmptyTile (seqZ 0 n)) c = false.
Proof.
  unfold bombAt. rewrite item_fresh_positions. by destruct (decide _).
Qed.

(** X11. For a grid of fewer than 2^32 cells, the length up to which
    [Array(width * height)] makes an array, the generator returns whenever
    the draws, all of them indices of the grid, hold at least [numBoms]
    different values: the rejection sampling ends as soon as that many
    different cells have been drawn. *)
Theorem generateInitialGrid_returns_on_enough_draws width height numBoms draws :
  1 <= width -> 1 <= height -> 0 <= numBoms ->
  width * height < 2 ^ 32 ->
  Forall (fun d => 0 <= d < width * height) draws ->
  numBoms <= freshDraws [] draws ->
  exists tiles, generateInitialGrid width height numBoms draws = Ok tiles.
Proof.
  intros Hw Hh Hn Hmax Hrange Hfresh. unfold generateInitialGrid.
  destruct (decide (width * height < 0 \/ 2 ^ 32 <= width * height)); [lia|].
  destruct (placeBombs_enough numBoms draws
              (map EmptyTile (seqZ 0 (width * height))) 0 [])
    as [positions Hplace].
  - apply bombsOrEmpty_fresh.
  - intros c. rewrite bombAt_fresh. simpl. split; [done|tauto].
  - rewrite length_map, length_seqZ. eapply Forall_impl; [exact Hrange|].
    simpl. intros d Hd. lia.
  - lia.
  - rewrite Hplace. cbn [bind].
    apply placeBombs_Ok in Hplace as (L & _ & _);
      [|apply bombsOrEmpty_fresh|apply count_fresh_positions|lia].
    rewrite length_map, length_seqZ in L.
    apply mapi_total. intros c t _. destruct (is_bomb t); [eauto|].
    destruct (countAdjacentBombs_total width height (0 + c) positions) as [k ->];
      [lia|lia|]. simpl. eauto.
Qed.

Lemma generateInitialGrid_returns_on_enough_draws_witness :
  exists tiles, generateInitialGrid 3 3 2 [4; 4; 0; 7] = Ok tiles.
Proof.
  apply (generateInitialGrid_returns_on_enough_draws 3 3 2 [4; 4; 0; 7]).
  - lia.
  - lia.
  - lia.
  - lia.
  - repeat constructor; lia.
  - vm_compute. discriminate.
Defined.

Lemma generated_bombAt width height tiles positions c :
  length tiles = length positions ->
  (forall c t0 t, item positions c = Some t0 -> item tiles c = Some t ->
     (is_bomb t0 = true /\ t = t0) \/
     (is_bomb t0 = false /\ is_bomb t = false /\
      exists k, countAdjacentBombs width height c positions = Ok k /\
        t = if 0 <? k then NumberTile c k else EmptyTile c)) ->
  bombAt tiles c = bombAt positions c.
Proof.
  intros L Hkind. unfold bombAt.
  destruct (item tiles c) as [t|] eqn:E, (item positions c) as [t0|] eqn:E0.
  - destruct (Hkind c t0 t E0 E) as [[_ ->]|(-> & -> & _)]; done.
  - apply item_Some in E. apply item_None in E0. lia.
  - apply item_Some in E0. apply item_None in E. lia.
  - done.
Qed.

(** X12. The mines of a returned board lie on the first [numBoms] different
    values of the draws, and nowhere else: the layout depends on the random
    source through these values alone. *)
Theorem generated_mines_are_first_draws width height numBoms draws tiles c :
  0 <= numBoms ->
  generateInitialGrid width height numBoms draws = Ok tiles ->
  bombAt tiles c = true <->
  In c (firstDistinct (Z.to_nat numBoms) [] draws).
Proof.
  intros Hn H.
  destruct (generateInitialGrid_inv _ _ _ _ _ Hn H)
    as (positions & Hplace & _ & L' & _ & _ & Hkind).
  rewrite (generated_bombAt _ _ _ positions c L' Hkind).
  rewrite (placeBombs_firstDistinct numBoms draws _ 0 [] positions Hplace).
  - rewrite Z.sub_0_r. simpl. tauto.
  - apply bombsOrEmpty_fresh.
  - intros c'. rewrite bombAt_fresh. simpl. split; [done|tauto].
Qed.

Lemma generated_mines_are_first_draws_witness :
  bombAt [BombTile 0; NumberTile 1 2; NumberTile 2 1;
          NumberTile 3 2; BombTile 4; NumberTile 5 1;
          NumberTile 6 1; NumberTile 7 1; NumberTile 8 1] 4 = true <->
  In 4 (firstDistinct 2 [] [4; 4; 0; 7]).
Proof.
  apply (generated_mines_are_first_draws 3 3 2 [4; 4; 0; 7]).
  - lia.
  - reflexivity.
Defined.

Lemma count_complement {A : Type} (p : A -> bool) (l : list A) :
  count p l + count (fun x => negb (p x)) l = Z.of_nat (length l).
Proof.
  induction l as [|x l IH]; simpl; [done|]. destruct (p x); simpl; lia.
Qed.

Lemma count_pos_item {A : Type} (p : A -> bool) (l : list A) :
  0 < count p l -> exists c x, item l c = Some x /\ p x = true.
Proof.
  induction l as [|y l IH]; simpl; [lia|].
  destruct (p y) eqn:Hp.
  - intros _. exists 0, y. done.
  - intros H. destruct IH as (c & x & E & Hx); [lia|].
    exists (c + 1), x. split; [|done].
    rewrite item_cons. destruct (decide _) as [Hc|_].
    + apply item_Some in E. lia.
    + by replace (c + 1 - 1) with c by lia.
Qed.

Lemma generated_bomb_count width height numBoms draws tiles :
  0 <= numBoms ->
  generateInitialGrid width height numBoms draws = Ok tiles ->
  Z.of_nat (length tiles) = width * height /\ count is_bomb tiles = numBoms.
Proof.
  intros Hn H.
  destruct (generateInitialGrid_inv _ _ _ _ _ Hn H)
    as (positions & _ & L & L' & _ & Hcount & Hkind).
  split; [lia|]. rewrite <- Hcount. apply count_pointwise; [done|].
  intros c t t0 E E0.
  destruct (Hkind c t0 t E0 E) as [[_ ->]|(-> & -> & _)]; done.
Qed.

(** X13. Every board that the generator returns for a valid configuration holds
    a cell without a mine, and a mine whose reveal as the first click of the
    game is [Lost]: the first click is not protected. *)
Theorem first_click_can_lose width height numBoms draws tiles st :
  1 <= width -> 1 <= height -> 1 <= numBoms <= width * height - 1 ->
  generateInitialGrid width height numBoms draws = Ok tiles ->
  initialTileStates width height = Ok st ->
  (exists idx st',
     uncoverTile width height tiles st idx = Ok (st', Lost)) /\
  (exists idx, safeAt tiles idx = true).
Proof.
  intros Hw Hh Hn H Hinit.
  assert (Hn0 : 0 <= numBoms) by lia.
  destruct (generated_bomb_count _ _ _ _ _ Hn0 H) as [L Hcount].
  pose proof (initial_length _ _ _ Hinit) as Lst.
  split.
  - destruct (count_pos_item is_bomb tiles) as (idx & t & E & Hb); [lia|].
    assert (Hbomb : bombAt tiles idx = true) by (unfold bombAt; by rewrite E).
    destruct (uncoverTile_bomb width height tiles st idx) as (st' & E' & _).
    + lia.
    + unfold openAt. rewrite (initial_item _ _ _ idx Hinit).
      by destruct (decide _).
    + done.
    + eauto.
  - pose proof (count_complement is_bomb tiles) as Hc.
    destruct (count_pos_item (fun t => negb (is_bomb t)) tiles)
      as (idx & t & E & Hs); [lia|].
    exists idx. unfold safeAt. by rewrite E.
Qed.

Lemma first_click_can_lose_witness :
  (exists idx st',
     uncoverTile 3 3 board3x3 (replicate 9 closed) idx = Ok (st', Lost)) /\
  (exists idx, safeAt board3x3 idx = true).
Proof.
  apply (first_click_can_lose 3 3 1 [8] board3x3 (replicate 9 closed)).
  - lia.
  - lia.
  - lia.
  - reflexivity.
  - reflexivity.
Defined.

(** ** The screens *)

(** X16. The states of [App]: the banner of the end of a game shows over a
    grid only, and [didWin] is set in a game that is over only. *)
Theorem app_invariant {number : Type} (ofZ : Z -> number) (s : App.State) :
  App.reachable ofZ s ->
  (App.gameOver s = true -> App.gameStarted s = true) /\
  (App.didWin s = true -> App.gameOver s = true).
Proof.
  induction 1 as [|s w h n _ IH _|s won _ IH Hgrid|s _ IH _]; simpl; done.
Qed.

Lemma app_invariant_witness :
  (App.gameOver
     (App.onGameOver true
        (App.onConfig (3 # 2)%Q (1 # 1)%Q (1 # 2)%Q (App.initial inject_Z)))
   = true ->
   App.gameStarted
     (App.onGameOver true
        (App.onConfig (3 # 2)%Q (1 # 1)%Q (1 # 2)%Q (App.initial inject_Z)))
   = true) /\
  (App.didWin
     (App.onGameOver true
        (App.onConfig (3 # 2)%Q (1 # 1)%Q (1 # 2)%Q (App.initial inject_Z)))
   = true ->
   App.gameOver
     (App.onGameOver true
        (App.onConfig (3 # 2)%Q (1 # 1)%Q (1 # 2)%Q (App.initial inject_Z)))
   = true).
Proof.
  apply (app_invariant inject_Z).
  apply App.reachable_onGameOver; [|reflexivity].
  apply App.reachable_onConfig; [|reflexivity].
  apply App.reachable_initial.
Defined.

Lemma mapi_ext_items {X Y : Type} (l1 l2 : list X) i0 (f g : X -> Z -> Res Y) :
  length l1 = length l2 ->
  (forall c t1 t2, item l1 c = Some t1 -> item l2 c = Some t2 ->
     f t1 (i0 + c) = g t2 (i0 + c)) ->
  mapi l1 i0 f = mapi l2 i0 g.
Proof.
  revert l2 i0. induction l1 as [|x1 l1 IH]; intros [|x2 l2] i0 L H; try done.
  simpl. pose proof (H 0 x1 x2 eq_refl eq_refl) as H0.
  rewrite Z.add_0_r in H0. rewrite H0.
  rewrite (IH l2 (i0 + 1)); [done|by injection L|].
  intros c t1 t2 E1 E2.
  replace (i0 + 1 + c) with (i0 + (c + 1)) by lia.
  apply H.
  - rewrite item_cons. destruct (decide _) as [Hc|_].
    + apply item_Some in E1. lia.
    + by replace (c + 1 - 1) with c by lia.
  - rewrite item_cons. destruct (decide _) as [Hc|_].
    + apply item_Some in E2. lia.
    + by replace (c + 1 - 1) with c by lia.
Qed.

(** X17. The rendered grid shows the layout of the revealed cells only: two
    layouts that agree on the cells revealed in [tileStates] are rendered
    alike, text by text. *)
Theorem renderTiles_hides_unrevealed tiles1 tiles2 tileStates :
  length tiles1 = length tiles2 ->
  (forall c, openAt tileStates c = true -> item tiles1 c = item tiles2 c) ->
  renderTiles tiles1 tileStates = renderTiles tiles2 tileStates.
Proof.
  intros L H. unfold renderTiles. apply mapi_ext_items; [done|].
  intros c t1 t2 E1 E2. rewrite Z.add_0_l.
  specialize (H c). unfold openAt in H.
  destruct (item tileStates c) as [s|]; [|done]. simpl.
  unfold getTileDisplay. destruct (isOpen s); simpl; [|done].
  rewrite E1, E2 in H. specialize (H eq_refl). by injection H as ->.
Qed.

Lemma renderTiles_hides_unrevealed_witness :
  renderTiles board3x3
    [closed; closed; closed; closed; opened; closed; closed; closed; closed]
  = renderTiles
      [BombTile 0; NumberTile 1 1; EmptyTile 2;
       NumberTile 3 1; NumberTile 4 1; EmptyTile 5;
       EmptyTile 6; EmptyTile 7; EmptyTile 8]
      [closed; closed; closed; closed; opened; closed; closed; closed; closed].
Proof.
  apply (renderTiles_hides_unrevealed board3x3).
  - reflexivity.
  - intros c Ho.
    assert (Hc : c = 4).
    { unfold openAt in Ho. rewrite !item_cons in Ho.
      repeat (destruct (decide _); [done|]).
      destruct (decide _); [lia|].
      repeat (destruct (decide _); [done|]).
      by rewrite item_nil in Ho. }
    subst c. reflexivity.
Defined.

(** ** The end of a game on the screen *)

Lemma renderTiles_Ok tiles st views :
  renderTiles tiles st = Ok views ->
  forall c t, item tiles c = Some t ->
    exists s, item st c = Some s /\
      item views c = Some (getTileDisplay t s, isOpen s).
Proof.
  intros H c t E. apply mapi_Ok in H as [_ H].
  destruct (H c t E) as (y & Hy & Ey). rewrite Z.add_0_l in Hy.
  apply bind_Ok in Hy as (s & Hs & Hy). apply prop_Ok in Hs.
  injection Hy as <-. eauto.
Qed.

Lemma renderTiles_total tiles st :
  length st = length tiles -> exists views, renderTiles tiles st = Ok views.
Proof.
  intros L. apply mapi_total. intros c t E. rewrite Z.add_0_l.
  destruct (item_is_Some st c) as [s ->]; [apply item_Some in E; lia|].
  simpl. eauto.
Qed.

(** X18. After a reveal that ends the game, the grid is rendered, and every mine
    shows on it: after [Lost] as a revealed mine, whether flagged or not;
    after [Won] as a flag, unless an earlier loss had revealed it. *)
Theorem mines_shown_at_end width height tiles st idx st' o :
  wellFormed width height tiles st ->
  uncoverTile width height tiles st idx = Ok (st', o) ->
  o <> InProgress ->
  exists views,
    renderTiles tiles st' = Ok views /\
    forall c, bombAt tiles c = true ->
      (o = Lost -> item views c = Some ("💣", true)) /\
      (o = Won ->
       item views c =
         Some (if openAt st c then "💣" else "⛳️", openAt st c)).
Proof.
  intros [_ L] H Hterm.
  pose proof (uncoverTile_length _ _ _ _ _ _ _ L H) as L'.
  destruct (renderTiles_total tiles st') as [views Hv]; [congruence|].
  exists views. split; [done|]. intros c Hb.
  pose proof Hb as Hb'. unfold bombAt in Hb'.
  destruct (item tiles c) as [t|] eqn:Et; [|done].
  destruct t; try done.
  destruct (renderTiles_Ok _ _ _ Hv c _ Et) as (s & Es & ->).
  apply uncoverTile_Ok in H; [|done].
  destruct H as [(_ & _ & ->)|[(_ & _ & -> & Hon)
                  |(_ & _ & st1 & Hrun & [(_ & -> & Hon)|(_ & -> & _)])]];
    try done.
  - split; [intros _|done].
    pose proof (onBombs_open _ _ _ c Hon) as Ho. rewrite Hb in Ho.
    destruct (decide _) as [|Hout].
    2:{ exfalso. apply Hout. apply bombAt_range in Hb. lia. }
    unfold openAt in Ho. rewrite Es in Ho.
    unfold getTileDisplay. by rewrite Ho.
  - split; [done|intros _].
    pose proof (cascade_opensSafe _ _ _ _ _ _ _ Hrun) as Hgrow.
    pose proof (opensSafe_length _ _ _ Hgrow) as L1.
    assert (Ho : isOpen s = openAt st c).
    { pose proof (onBombs_flagged_open _ _ _ c Hon) as Ho.
      unfold openAt in Ho at 1. rewrite Es in Ho. rewrite Ho.
      destruct (openAt st c) eqn:Eo; [by eapply opensSafe_open|].
      destruct (openAt st1 c) eqn:E1; [|done].
      pose proof (opensSafe_newly _ _ _ _ Hgrow Eo E1) as Hsc.
      apply bombAt_safeAt in Hb. congruence. }
    assert (Hf : isFlagged s = true).
    { pose proof (onBombs_flagged_flag _ _ _ c Hon) as Hf.
      rewrite Hb in Hf. unfold flagAt in Hf at 1. rewrite Es in Hf.
      destruct (decide _) as [|Hout]; [done|].
      exfalso. apply Hout. apply bombAt_range in Hb. lia. }
    unfold getTileDisplay. rewrite Ho, Hf. by destruct (openAt st c).
Qed.

Lemma mines_shown_at_end_witness :
  exists views,
    renderTiles board5x1
      [closed; {| isOpen := false; isFlagged := true |}; closed; closed; opened]
      = Ok views /\
    forall c, bombAt board5x1 c = true ->
      (Lost = Lost -> item views c = Some ("💣", true)) /\
      (Lost = Won ->
       item views c =
         Some (if openAt
                    [closed; {| isOpen := false; isFlagged := true |};
                     closed; closed; closed] c
               then "💣" else "⛳️",
               openAt [closed; {| isOpen := false; isFlagged := true |};
                       closed; closed; closed] c)).
Proof.
  apply (mines_shown_at_end 5 1 board5x1
           [closed; {| isOpen := false; isFlagged := true |}; closed; closed; closed]
           4 _ Lost).
  - unfold wellFormed, gridLayout. simpl. lia.
  - reflexivity.
  - discriminate.
Defined.

(** X5. Flags of different cells are toggled independently: two toggles give
    the same state in either order. *)
Theorem toggleFlag_commutes st i j s1 s2 :
  toggleFlag st i = Ok s1 ->
  toggleFlag s1 j = Ok s2 ->
  i <> j ->
  exists s1', toggleFlag st j = Ok s1' /\ toggleFlag s1' i = Ok s2.
Proof.
  intros H1 H2 Hne.
  pose proof (toggleFlag_Ok _ _ _ H1) as (si & Ei & L1 & Hitem1).
  pose proof (toggleFlag_Ok _ _ _ H2) as (sj & Ej & L2 & Hitem2).
  assert (Ej' : item st j = Some sj).
  { rewrite Hitem1 in Ej. by destruct (decide _). }
  destruct (update_total st j (withFlagged (negb (isFlagged sj))) sj Ej')
    as [s1' Hup1].
  assert (E1 : toggleFlag st j = Ok s1') by (unfold toggleFlag; by rewrite Ej').
  pose proof (toggleFlag_Ok _ _ _ E1) as (sj' & Ej'' & L1' & Hitem1').
  rewrite Ej' in Ej''. injection Ej'' as <-.
  assert (Ei' : item s1' i = Some si).
  { rewrite Hitem1'. by destruct (decide _). }
  destruct (update_total s1' i (withFlagged (negb (isFlagged si))) si Ei')
    as [s2' Hup2].
  assert (E2 : toggleFlag s1' i = Ok s2') by (unfold toggleFlag; by rewrite Ei').
  pose proof (toggleFlag_Ok _ _ _ E2) as (si' & Ei'' & L2' & Hitem2').
  rewrite Ei' in Ei''. injection Ei'' as <-.
  exists s1'. split; [done|]. rewrite E2. f_equal.
  apply item_ext. intros c. rewrite Hitem2', Hitem2, Hitem1', Hitem1.
  destruct (decide (c = i)), (decide (c = j)); try done. congruence.
Qed.

Lemma toggleFlag_commutes_witness :
  exists s1',
    toggleFlag [closed; closed; opened] 2 = Ok s1' /\
    toggleFlag s1' 0
    = Ok [{| isOpen := false; isFlagged := true |}; closed;
          {| isOpen := true; isFlagged := true |}].
Proof.
  apply (toggleFlag_commutes [closed; closed; opened] 0 2
           [{| isOpen := false; isFlagged := true |}; closed; opened]).
  - reflexivity.
  - reflexivity.
  - lia.
Defined.

(** ** Games that overflow the call stack *)

Lemma rowBoard_item n c :
  item (rowBoard n) c =
    if decide (0 <= c < Z.of_nat n) then Some (EmptyTile c)
    else if decide (c = Z.of_nat n) then Some (NumberTile c 1)
    else if decide (c = Z.of_nat n + 1) then Some (BombTile c)
    else None.
Proof.
  destruct (decide (0 <= c < Z.of_nat n)) as [H|H]; [by apply rowBoard_empty|].
  destruct (decide (c = Z.of_nat n)) as [->|H1];
    [|destruct (decide (c = Z.of_nat n + 1)) as [->|H2]].
  - unfold rowBoard, item. destruct (decide _); [|lia].
    rewrite lookup_app_r by (rewrite length_map, length_seqZ; lia).
    rewrite length_map, length_seqZ.
    by replace (Z.to_nat (Z.of_nat n) - Z.to_nat (Z.of_nat n))%nat with 0%nat
      by lia.
  - unfold rowBoard, item. destruct (decide _); [|lia].
    rewrite lookup_app_r by (rewrite length_map, length_seqZ; lia).
    rewrite length_map, length_seqZ.
    by replace (Z.to_nat (Z.of_nat n + 1) - Z.to_nat (Z.of_nat n))%nat
      with 1%nat by lia.
  - apply item_None. rewrite rowBoard_length. lia.
Qed.

(** The generator returns the row board when the one mine is drawn at the
    last index. *)
Lemma rowBoard_generated n :
  Z.of_nat n + 2 < 2 ^ 32 ->
  generateInitialGrid (Z.of_nat n + 2) 1 1 [Z.of_nat n + 1] = Ok (rowBoard n).
Proof.
  intros Hmax. unfold generateInitialGrid.
  destruct (decide _) as [|_]; [lia|].
  rewrite Z.mul_1_r.
  set (fresh := map EmptyTile (seqZ 0 (Z.of_nat n + 2))).
  assert (Lf : Z.of_nat (length fresh) = Z.of_nat n + 2).
  { unfold fresh. rewrite length_map, length_seqZ. lia. }
  assert (Hplace : placeBombs 1 [Z.of_nat n + 1] fresh 0
            = Ok (<[Z.to_nat (Z.of_nat n + 1) := BombTile (Z.of_nat n + 1)]> fresh)).
  { simpl. destruct (decide (0 < 1)); [|lia].
    unfold fresh at 1. rewrite item_fresh_positions.
    destruct (decide _); [|lia]. simpl.
    rewrite assign_in_range by lia. simpl.
    destruct (decide (0 + 1 < 1)); [lia|done]. }
  rewrite Hplace. cbn [bind].
  set (positions := <[Z.to_nat (Z.of_nat n + 1) := BombTile (Z.of_nat n + 1)]> fresh).
  assert (Lp : Z.of_nat (length positions) = Z.of_nat n + 2).
  { unfold positions. by rewrite length_insert. }
  assert (Hpos : forall c, item positions c =
            if decide (c = Z.of_nat n + 1) then Some (BombTile (Z.of_nat n + 1))
            else if decide (0 <= c < Z.of_nat n + 2) then Some (EmptyTile c)
            else None).
  { intros c. unfold positions. rewrite item_insert by lia.
    destruct (decide _); [done|]. unfold fresh. apply item_fresh_positions. }
  assert (Hbomb : forall c, bombAt positions c = (c =? Z.of_nat n + 1)).
  { intros c. unfold bombAt. rewrite Hpos.
    destruct (decide (c = _)) as [->|Hne].
    - by rewrite Z.eqb_refl.
    - rewrite (proj2 (Z.eqb_neq _ _) Hne). by destruct (decide _). }
  match goal with |- mapi positions 0 ?f = _ => set (body := f) end.
  assert (Hbody : forall c t, item positions c = Some t ->
            body t (0 + c) = Ok (if decide (c = Z.of_nat n + 1) then BombTile c
                                 else if decide (c = Z.of_nat n) then NumberTile c 1
                                 else EmptyTile c)).
  { intros c t E. rewrite Hpos in E. rewrite Z.add_0_l. unfold body.
    destruct (decide (c = Z.of_nat n + 1)) as [->|Hne].
    { by injection E as <-. }
    destruct (decide (0 <= c < _)) as [Hc|]; [|done]. injection E as <-.
    cbn [is_bomb type].
    destruct (countAdjacentBombs_total (Z.of_nat n + 2) 1 c positions)
      as [k Hk]; [lia|lia|].
    rewrite Hk. cbn [bind].
    apply countAdjacentBombs_Ok in Hk. rewrite neighbours_row in Hk by lia.
    assert (Ek : k = if decide (c = Z.of_nat n) then 1 else 0).
    { subst k. destruct (0 <? c); cbn [app count]; rewrite !Hbomb.
      - rewrite (proj2 (Z.eqb_neq (c - 1) _)), (proj2 (Z.eqb_neq c _)) by lia.
        destruct (decide (c = Z.of_nat n)) as [->|].
        + by rewrite Z.eqb_refl.
        + by rewrite (proj2 (Z.eqb_neq (c + 1) _)) by lia.
      - rewrite (proj2 (Z.eqb_neq c _)) by lia.
        destruct (decide (c = Z.of_nat n)) as [->|].
        + by rewrite Z.eqb_refl.
        + by rewrite (proj2 (Z.eqb_neq (c + 1) _)) by lia. }
    rewrite Ek. by destruct (decide (c = Z.of_nat n)). }
  destruct (mapi_total positions 0 body) as [tiles Hrun].
  { intros c t E. rewrite (Hbody c t E). eauto. }
  rewrite Hrun. f_equal. apply mapi_Ok in Hrun as [L Hitem].
  apply item_ext. intros c. rewrite rowBoard_item.
  destruct (item positions c) as [t|] eqn:E.
  - destruct (Hitem c t E) as (y & Hy & ->). rewrite (Hbody c t E) in Hy.
    injection Hy as <-. rewrite Hpos in E.
    destruct (decide (c = Z.of_nat n + 1)) as [->|].
    { destruct (decide (0 <= _ < _)); [lia|].
      destruct (decide (_ = Z.of_nat n)); [lia|]. done. }
    destruct (decide (0 <= c < Z.of_nat n + 2)); [|done].
    destruct (decide (c = Z.of_nat n)) as [->|].
    { destruct (decide (0 <= _ < _)); [lia|done]. }
    destruct (decide (0 <= c < Z.of_nat n)); [done|lia].
  - apply item_None in E.
    destruct (decide (0 <= c < Z.of_nat n)); [lia|].
    destruct (decide (c = Z.of_nat n)); [lia|].
    destruct (decide (c = Z.of_nat n + 1)); [lia|].
    apply item_None. lia.
Qed.

(** On every call stack there is a game that overflows it at the first
    click, as long as its board fits an array: the generated row board with
    as many [Empty] cells as the stack admits nested calls, revealed at cell
    0 in its initial state. *)
Lemma reveal_overflows_on_generated_row (stack : nat) :
  Z.of_nat stack + 2 < 2 ^ 32 ->
  exists tiles st,
    generateInitialGrid (Z.of_nat stack + 2) 1 1 [Z.of_nat stack + 1]
      = Ok tiles /\
    initialTileStates (Z.of_nat stack + 2) 1 = Ok st /\
    uncoverTileWithin (Z.of_nat stack + 2) 1 tiles stack st 0
      = Err StackOverflow.
Proof.
  intros Hmax. exists (rowBoard stack), (replicate (stack + 2) closed).
  split; [by apply rowBoard_generated|]. split.
  { unfold initialTileStates. destruct (decide _); [lia|].
    unfold closed. do 2 f_equal. lia. }
  unfold uncoverTileWithin.
  destruct (closed_item (replicate (stack + 2) closed) 0) as (s & -> & Hs).
  { rewrite length_replicate. lia. }
  { apply closed_states_open. }
  cbn [bind prop]. rewrite Hs, rowBoard_item.
  assert (Hrun : cascade (Z.of_nat stack + 2) 1 (rowBoard stack) stack 0
                   (replicate (stack + 2) closed) = Err StackOverflow).
  { apply cascade_row_overflow.
    - by rewrite length_replicate.
    - lia.
    - lia.
    - lia.
    - intros c _. apply closed_states_open. }
  destruct (decide (0 <= 0 < Z.of_nat stack)); cbn [bind prop is_bomb type].
  - by rewrite Hrun.
  - destruct (decide (0 = Z.of_nat stack)); [|lia].
    cbn [bind prop is_bomb type]. by rewrite Hrun.
Qed.
